(** * Penrose tiling generator ([penrose.py]): half-tiles and their deflation

    The program builds a Penrose tiling (kites and darts, or rhombs) from one
    seed half-tile by repeated substitution.  Its arithmetic is Python's:
    integers for the canvas size and the depth, floating-point numbers for the
    coordinates.  The development keeps the two apart: integers are [Z], and
    the numbers of the coordinates are the carrier of an arithmetic structure
    [Arith], so that everything proved for an arbitrary structure holds for
    binary64 numbers as well as for the real numbers.  Statements that need
    real analysis (the seed's proportions) are made on the instance [RArith].
    The exceptions this arithmetic raises (a division by zero, a result out of
    range) are the matter of a second structure, [Raising]: [refreshTiles_exn]
    is [refreshTiles] with the exceptions of its line 156 and of the seed
    constructors, and [refreshTiles] is the state it leaves when none is
    raised. *)

From Stdlib Require Import ZArith List String Bool Lia.
From Stdlib Require Import Reals Lra RNsatz.
From Stdlib Require Import DecimalString.
Import ListNotations.

Set Implicit Arguments.

(** ** Arithmetic of the coordinates *)

(** The operations [penrose.py] applies to numbers: [+], [-], [*], [/],
    [**] with an integer exponent, the conversion of an [int] operand that
    Python inserts in mixed arithmetic, and [math.sqrt], [math.sin],
    [math.cos], [math.pi]. *)
Class Arith : Type := {
  num : Type;
  num_add : num -> num -> num;
  num_sub : num -> num -> num;
  num_mul : num -> num -> num;
  num_div : num -> num -> num;
  num_pow : num -> Z -> num;
  of_int : Z -> num;
  math_sqrt : num -> num;
  math_sin : num -> num;
  math_cos : num -> num;
  math_pi : num
}.

Declare Scope num_scope.
Delimit Scope num_scope with num.
Infix "+" := num_add : num_scope.
Infix "-" := num_sub : num_scope.
Infix "*" := num_mul : num_scope.
Infix "/" := num_div : num_scope.
Infix "**" := num_pow (at level 30, right associativity) : num_scope.

(** The idealised arithmetic: real numbers. *)
#[export] Instance RArith : Arith := {|
  num := R;
  num_add := Rplus;
  num_sub := Rminus;
  num_mul := Rmult;
  num_div := Rdiv;
  num_pow := powerRZ;
  of_int := IZR;
  math_sqrt := sqrt;
  math_sin := sin;
  math_cos := cos;
  math_pi := PI
|}.

(** ** Exceptions *)

(** The exceptions the arithmetic of [penrose.py] can raise. *)
Inductive exn : Type := ZeroDivisionError | OverflowError.

(** When an operation of [Arith] raises, and what: the conversion of an
    [int] operand to a float ([OverflowError], if the integer is out of
    range), [x / y] ([ZeroDivisionError], if [y] is zero), and [x ** n] with
    an integer [n] ([OverflowError], if [n] or the result is out of range;
    [ZeroDivisionError], if [x] is zero and [n] negative).  The operations
    [+], [-] and [*] on floats raise nothing.  Where an operation raises
    nothing, the function of [Arith] gives its result. *)
Class Raising (A : Arith) : Type := {
  of_int_exn : Z -> option exn;
  div_exn : num -> num -> option exn;
  pow_exn : num -> Z -> option exn
}.

(** A computation that returns a value or raises an exception. *)
Definition result (T : Type) : Type := (exn + T)%type.

Definition ret {T : Type} (x : T) : result T := inr x.

Definition raise {T : Type} (e : exn) : result T := inl e.

Definition bind {T U : Type} (r : result T) (k : T -> result U) : result U :=
  match r with
  | inl e => inl e
  | inr x => k x
  end.

Declare Scope result_scope.
Delimit Scope result_scope with result.
Notation "x <- r ;; k" := (bind r (fun x => k))
  (at level 61, r at next level, right associativity) : result_scope.

Section Penrose.

Context {A : Arith}.

Local Open Scope num_scope.

(** ** Geometry *)

(** A point is a Python pair [(x, y)]. *)
Definition point : Type := (num * num)%type.

(** [PHI = (math.sqrt(5) - 1) / 2] *)
Definition PHI : num := (math_sqrt (of_int 5) - of_int 1) / of_int 2.

(** [goldenMidpoint(A, B)]: the point that is phi of the way from [A] to [B]. *)
Definition goldenMidpoint (a b : point) : point :=
  let '((x1, y1), (x2, y2)) := (a, b) in
  let '(dx, dy) := (x2 - x1, y2 - y1) in
  (x1 + PHI * dx, y1 + PHI * dy).

(** Componentwise operations on points, in which the specification states
    the interpolation: [A + phi (B - A)]. *)
Definition point_add (p q : point) : point := (fst p + fst q, snd p + snd q).
Definition point_sub (p q : point) : point := (fst p - fst q, snd p - snd q).
Definition point_scale (k : num) (p : point) : point := (k * fst p, k * snd p).

(** ** Half-tiles *)

(** The four leaf classes [Kite], [Dart] (of [KiteDart]) and [Acute],
    [Obtuse] (of [Rhomb]).  Each is built by [Isoceles.__init__(apex, vertex1,
    vertex2)], which stores its three arguments in the fields of these
    names. *)
Inductive tile : Type :=
| Kite (apex vertex1 vertex2 : point)
| Dart (apex vertex1 vertex2 : point)
| Acute (apex vertex1 vertex2 : point)
| Obtuse (apex vertex1 vertex2 : point).

Definition apex (t : tile) : point :=
  match t with Kite a _ _ | Dart a _ _ | Acute a _ _ | Obtuse a _ _ => a end.

Definition vertex1 (t : tile) : point :=
  match t with Kite _ v _ | Dart _ v _ | Acute _ v _ | Obtuse _ v _ => v end.

Definition vertex2 (t : tile) : point :=
  match t with Kite _ _ v | Dart _ _ v | Acute _ _ v | Obtuse _ _ v => v end.

(** The class of a tile, and the base class it inherits from. *)
Inductive variant : Type := VKite | VDart | VAcute | VObtuse.
Inductive family : Type := KiteDart | Rhomb.

Definition variant_of (t : tile) : variant :=
  match t with
  | Kite _ _ _ => VKite
  | Dart _ _ _ => VDart
  | Acute _ _ _ => VAcute
  | Obtuse _ _ _ => VObtuse
  end.

Definition family_of_variant (v : variant) : family :=
  match v with
  | VKite | VDart => KiteDart
  | VAcute | VObtuse => Rhomb
  end.

Definition family_of (t : tile) : family := family_of_variant (variant_of t).

(** [color] and [lineColor], the class attributes the drawing code reads. *)
Definition color (t : tile) : string :=
  match t with
  | Kite _ _ _ => "white"
  | Dart _ _ _ => "#71DCFC"
  | Acute _ _ _ => "#CBE86B"
  | Obtuse _ _ _ => "white"
  end.

Definition lineColor (t : tile) : string :=
  match family_of t with
  | KiteDart => "#555555"
  | Rhomb => "#1C140D"
  end.

(** ** Deflation *)

(** [tile.deflate()], dispatched on the class of the tile.  Python returns a
    tuple; the only use of it is [newTiles.extend(...)], which reads it in
    order, so it is a list here. *)
Definition deflate (t : tile) : list tile :=
  match t with
  | Kite apex vertex1 vertex2 =>
      let newPoint1 := goldenMidpoint vertex1 apex in
      let newPoint2 := goldenMidpoint apex vertex2 in
      let dart := Dart newPoint1 newPoint2 apex in
      let kite1 := Kite vertex1 newPoint1 newPoint2 in
      let kite2 := Kite vertex1 vertex2 newPoint2 in
      [dart; kite1; kite2]
  | Dart apex vertex1 vertex2 =>
      let newPoint := goldenMidpoint vertex2 vertex1 in
      let kite := Kite vertex2 newPoint apex in
      let dart := Dart newPoint apex vertex1 in
      [kite; dart]
  | Acute apex vertex1 vertex2 =>
      let newPoint := goldenMidpoint apex vertex1 in
      let obtuse := Obtuse newPoint vertex2 apex in
      let acute := Acute vertex2 newPoint vertex1 in
      [obtuse; acute]
  | Obtuse apex vertex1 vertex2 =>
      let newPoint1 := goldenMidpoint vertex1 apex in
      let newPoint2 := goldenMidpoint vertex1 vertex2 in
      let obtuse1 := Obtuse newPoint1 newPoint2 vertex1 in
      let acute := Acute newPoint2 newPoint1 apex in
      let obtuse2 := Obtuse newPoint2 vertex2 apex in
      [obtuse1; acute; obtuse2]
  end.

(** ** Seeds *)

(** [KiteDart.initialTiles(cx, cy, length)]: the half kite.  The callers pass
    integers for [cx] and [cy] ([//] is floor division) and a float for
    [length]. *)
Definition KiteDart_initialTiles (cx cy : Z) (length : num) : list tile :=
  let '(cx, cy) := ((cx * 2 / 5)%Z, (cy * 2 / 5)%Z) in
  let left := of_int cx - length / of_int 2 in
  let right := of_int cx + length / of_int 2 in
  let midX := left + length * math_cos (math_pi / of_int 5) in
  let height := length * math_sin (math_pi / of_int 5) in
  let '(top, bottom) :=
    (of_int cy - height / of_int 2, of_int cy + height / of_int 2) in
  [Kite (left, bottom) (midX, top) (right, bottom)].

(** [Rhomb.initialTiles(cx, cy, length)]: the acute Robinson triangle.  The
    apex keeps the integer [cy] as its ordinate. *)
Definition Rhomb_initialTiles (cx cy : Z) (length : num) : list tile :=
  let cx := (cx * 2 / 5)%Z in
  let width := length * math_sin (of_int 2 * math_pi / of_int 5) in
  let height := length * PHI in
  let left := of_int cx - width / of_int 2 in
  let right := of_int cx + width / of_int 2 in
  let '(top, bottom) :=
    (of_int cy - height / of_int 2, of_int cy + height / of_int 2) in
  [Acute (left, of_int cy) (right, top) (right, bottom)].

(** ** The state and its handlers *)

(** The attributes of the [Struct] object [data]. *)
Record data : Type := mkData {
  width : Z;
  height : Z;
  timerDelay : Z;
  tiles : list tile;
  tileType : string;
  baseLength : Z;
  depth : Z
}.

Definition set_tiles (d : data) (ts : list tile) : data :=
  mkData (width d) (height d) (timerDelay d) ts (tileType d) (baseLength d)
    (depth d).

Definition set_tileType (d : data) (ty : string) : data :=
  mkData (width d) (height d) (timerDelay d) (tiles d) ty (baseLength d)
    (depth d).

Definition set_baseLength (d : data) (l : Z) : data :=
  mkData (width d) (height d) (timerDelay d) (tiles d) (tileType d) l
    (depth d).

Definition set_depth (d : data) (n : Z) : data :=
  mkData (width d) (height d) (timerDelay d) (tiles d) (tileType d)
    (baseLength d) n.

(** [for _ in range(n): body], on the state: [range] of a number that is not
    positive is empty. *)
Definition for_range (n : Z) (body : data -> data) (d : data) : data :=
  Nat.iter (Z.to_nat n) body d.

(** [deflateTiles(data)]: the loop extends [newTiles] by the children of each
    tile in turn, then stores it. *)
Definition deflateTiles (d : data) : data :=
  let newTiles :=
    fold_left (fun newTiles tile => newTiles ++ deflate tile) (tiles d) [] in
  set_tiles d newTiles.

(** [refreshTiles(data)], when none of its operations raises (the
    exceptions are those of [refreshTiles_exn] below).  With a [tileType]
    that is neither of the two labels no branch is taken and the old tiles
    stay. *)
Definition refreshTiles (d : data) : data :=
  let '(cx, cy) := ((width d / 2)%Z, (height d / 2)%Z) in
  let initialLength := of_int (baseLength d) / PHI ** depth d in
  let d :=
    if (tileType d =? "Kite & Dart")%string then
      set_tiles d (KiteDart_initialTiles cx cy initialLength)
    else if (tileType d =? "Rhombs")%string then
      set_tiles d (Rhomb_initialTiles cx cy initialLength)
    else d in
  for_range (depth d) deflateTiles d.

(** [init(data)] *)
Definition init (d : data) : data :=
  let d := set_tiles d [] in
  let d := set_tileType d "Rhombs" in
  let d := set_baseLength d 30 in
  let d := set_depth d 0 in
  refreshTiles d.

(** [keyPressed(event, data)], on [event.keysym]. *)
Definition keyPressed (keysym : string) (d : data) : data :=
  if (keysym =? "Up")%string then
    let d := set_depth d (depth d + 1) in
    refreshTiles d
  else if (keysym =? "Down")%string then
    if (depth d >? 0)%Z then
      let d := set_depth d (depth d - 1) in
      refreshTiles d
    else d
  else if (keysym =? "Tab")%string then
    let d :=
      set_tileType d
        (if (tileType d =? "Rhombs")%string then "Kite & Dart" else "Rhombs") in
    refreshTiles d
  else d.

(** The state [run(width, height)] hands to the event loop: [width], [height]
    and [timerDelay] are set, then [init] sets every other attribute (the
    values given to them here are overwritten). *)
Definition run_data (width height : Z) : data :=
  init (mkData width height 10000 [] "" 0 0).

(** ** Drawing *)

(** The items of a tkinter canvas, one constructor for each [create_...]
    method the program calls, with the arguments it passes.  A canvas is the
    list of its items in the order of their creation, which is the order in
    which they are stacked: a later item is painted over an earlier one. *)
Inductive item : Type :=
| create_polygon (coords : list point) (fill : string)
| create_line (coords : list point) (width : Z) (capstyle : option string)
    (fill : string)
| create_text (x y : Z) (anchor text : string)
| create_rectangle (x0 y0 x1 y1 : Z) (fill : string) (width : Z).

(** [Isoceles.draw(self, canvas)] *)
Definition Isoceles_draw (t : tile) (canvas : list item) : list item :=
  canvas ++ [create_polygon [apex t; vertex1 t; vertex2 t] (color t)].

(** [tile.draw(canvas)]: [KiteDart.draw] for kites and darts, [Rhomb.draw]
    for the Robinson triangles; both call [super().draw(canvas)] first. *)
Definition draw (t : tile) (canvas : list item) : list item :=
  match family_of t with
  | KiteDart =>
      let canvas := Isoceles_draw t canvas in
      canvas ++ [create_line [apex t; vertex2 t] 2 None (color t)]
  | Rhomb =>
      let canvas := Isoceles_draw t canvas in
      canvas ++ [create_line [vertex1 t; vertex2 t] 2 None (color t)]
  end.

(** [tile.drawLines(canvas)] *)
Definition drawLines (t : tile) (canvas : list item) : list item :=
  match family_of t with
  | KiteDart =>
      canvas ++ [create_line [apex t; vertex1 t; vertex2 t] 1
                   (Some "round"%string) (lineColor t)]
  | Rhomb =>
      canvas ++ [create_line [vertex1 t; apex t; vertex2 t] 1
                   (Some "round"%string) (lineColor t)]
  end.

(** ["%d" % n] for an [int]: its decimal numeral, with a minus sign if it is
    negative. *)
Definition format_d (n : Z) : string := NilZero.string_of_int (Z.to_int n).

(** [redrawAll(canvas, data)] *)
Definition redrawAll (canvas : list item) (d : data) : list item :=
  let canvas :=
    fold_left (fun canvas tile => draw tile canvas) (tiles d) canvas in
  let canvas :=
    fold_left (fun canvas tile => drawLines tile canvas) (tiles d) canvas in
  let text :=
    ("Tile type: " ++ tileType d ++ "  |  Depth: "
       ++ format_d (depth d))%string in
  let canvas := canvas ++ [create_text (width d / 2) 10 "n" text] in
  let info := "Press Up, Down or Tab"%string in
  canvas ++ [create_text (width d / 2) (height d - 10) "s" info].

(** ** The event loop *)

(** [mousePressed(event, data)] and [timerFired(data)]: [pass]. *)
Definition mousePressed (d : data) : data := d.
Definition timerFired (d : data) : data := d.

(** [canvas.delete(ALL)] *)
Definition delete_ALL (canvas : list item) : list item := [].

(** The wrappers [run] defines.  [canvas.update()] paints the items and
    leaves them as they are. *)
Definition redrawAllWrapper (canvas : list item) (d : data) : list item :=
  let canvas := delete_ALL canvas in
  let canvas :=
    canvas ++ [create_rectangle 0 0 (width d) (height d) "white" 0] in
  redrawAll canvas d.

Definition mousePressedWrapper (canvas : list item) (d : data)
  : list item * data :=
  let d := mousePressed d in
  (redrawAllWrapper canvas d, d).

Definition keyPressedWrapper (keysym : string) (canvas : list item) (d : data)
  : list item * data :=
  let d := keyPressed keysym d in
  (redrawAllWrapper canvas d, d).

(** [timerFiredWrapper] also asks the canvas to call it again after
    [data.timerDelay] milliseconds; that call is the event [Timer] below. *)
Definition timerFiredWrapper (canvas : list item) (d : data)
  : list item * data :=
  let d := timerFired d in
  (redrawAllWrapper canvas d, d).

(** What [root.mainloop()] hands to the wrappers: a click of the first mouse
    button, a key with its [keysym], the timer. *)
Inductive event : Type :=
| Button1
| Key (keysym : string)
| Timer.

Definition handle (st : list item * data) (e : event) : list item * data :=
  let '(canvas, d) := st in
  match e with
  | Button1 => mousePressedWrapper canvas d
  | Key keysym => keyPressedWrapper keysym canvas d
  | Timer => timerFiredWrapper canvas d
  end.

(** [run(width, height)] up to the moment the window is closed, the main
    loop having delivered [events]: the state is set up, the canvas is
    created empty, [timerFiredWrapper] is called once, then the events are
    handled in turn. *)
Definition run (width height : Z) (events : list event) : list item * data :=
  let d := run_data width height in
  let canvas := [] in
  fold_left handle events (timerFiredWrapper canvas d).

(** ** The regeneration algorithm, as the specification words it *)

(** The label [tileType] holds for each family. *)
Definition label (f : family) : string :=
  match f with
  | KiteDart => "Kite & Dart"
  | Rhomb => "Rhombs"
  end.

(** The seed constructor matching a family. *)
Definition seed_of (f : family) (cx cy : Z) (length : num) : list tile :=
  match f with
  | KiteDart => KiteDart_initialTiles cx cy length
  | Rhomb => Rhomb_initialTiles cx cy length
  end.

(** One generation-wide step: deflate every tile and concatenate the
    children, tile after tile. *)
Definition next_generation (ts : list tile) : list tile :=
  List.concat (map deflate ts).

(** [n] generation-wide steps. *)
Fixpoint generations (n : nat) (ts : list tile) : list tile :=
  match n with
  | O => ts
  | S n => generations n (next_generation ts)
  end.

(** Regeneration: the seed of edge length [baseLength / PHI ** depth] at the
    centre of the canvas, deflated [depth] times. *)
Definition initial_length (baseLength depth : Z) : num :=
  of_int baseLength / PHI ** depth.

Definition regenerate (f : family) (depth baseLength width height : Z)
  : list tile :=
  generations (Z.to_nat depth)
    (seed_of f (width / 2)%Z (height / 2)%Z
       (initial_length baseLength depth)).

(** The classes of the children of a tile of each class, in order. *)
Definition deflate_variants (v : variant) : list variant :=
  match v with
  | VKite => [VDart; VKite; VKite]
  | VDart => [VKite; VDart]
  | VAcute => [VObtuse; VAcute]
  | VObtuse => [VObtuse; VAcute; VObtuse]
  end.

(** The states the event loop can be in: the one [run] starts from, and
    those a key press leads to. *)
Inductive reachable (w h : Z) : data -> Prop :=
| reachable_run : reachable w h (run_data w h)
| reachable_key : forall keysym d,
    reachable w h d -> reachable w h (keyPressed keysym d).

(** ** Counting tiles *)

Definition variant_eqb (v w : variant) : bool :=
  match v, w with
  | VKite, VKite | VDart, VDart | VAcute, VAcute | VObtuse, VObtuse => true
  | _, _ => false
  end.

(** The number of tiles of a class in a list. *)
Definition count_variant (v : variant) (ts : list tile) : nat :=
  List.length (filter (fun t => variant_eqb (variant_of t) v) ts).

(** The Fibonacci numbers 0, 1, 1, 2, 3, 5, 8, ... *)
Fixpoint fib (n : nat) : nat :=
  match n with
  | O => O
  | S m => match m with
           | O => 1%nat
           | S k => (fib m + fib k)%nat
           end
  end.

(** ** Layers of a drawing *)

(** The items [draw] creates for a tile, and the item [drawLines] creates
    for it. *)
Definition fill_items (t : tile) : list item := draw t [].
Definition outline_items (t : tile) : list item := drawLines t [].

(** The key presses among the events, in order. *)
Definition key_presses (events : list event) : list string :=
  flat_map (fun e => match e with Key keysym => [keysym] | _ => [] end) events.

End Penrose.

(** ** [refreshTiles] with its exceptions *)

Section Exceptions.

Context {A : Arith} {X : Raising A}.

Local Open Scope num_scope.
Local Open Scope result_scope.

(** The conversion of an [int] operand of mixed arithmetic, [x / y] and
    [x ** n], each raising what [Raising] says. *)
Definition float_of_int (n : Z) : result num :=
  match of_int_exn n with
  | Some e => raise e
  | None => ret (of_int n)
  end.

Definition checked_div (x y : num) : result num :=
  match div_exn x y with
  | Some e => raise e
  | None => ret (x / y)
  end.

Definition checked_pow (x : num) (n : Z) : result num :=
  match pow_exn x n with
  | Some e => raise e
  | None => ret (x ** n)
  end.

(** Line 156, [initialLength = data.baseLength / PHI**data.depth]: the power
    is computed first, then [baseLength], an [int], is converted, then the
    quotient is taken. *)
Definition initialLength (d : data) : result num :=
  power <- checked_pow PHI (depth d) ;;
  b <- float_of_int (baseLength d) ;;
  checked_div b power.

(** [KiteDart.initialTiles(cx, cy, length)]: [cx - length/2] converts the
    integer [cx], and [cy - height/2] the integer [cy]; the divisions by 2
    and by 5 and the calls of [math.cos] and [math.sin] raise nothing. *)
Definition KiteDart_initialTiles_exn (cx cy : Z) (length : num)
  : result (list tile) :=
  let '(cx, cy) := ((cx * 2 / 5)%Z, (cy * 2 / 5)%Z) in
  cxf <- float_of_int cx ;;
  let left := cxf - length / of_int 2 in
  let right := cxf + length / of_int 2 in
  let midX := left + length * math_cos (math_pi / of_int 5) in
  let height := length * math_sin (math_pi / of_int 5) in
  cyf <- float_of_int cy ;;
  let '(top, bottom) := (cyf - height / of_int 2, cyf + height / of_int 2) in
  ret [Kite (left, bottom) (midX, top) (right, bottom)].

(** [Rhomb.initialTiles(cx, cy, length)]: [cx - width/2] converts the integer
    [cx], and [cy - height/2] the integer [cy], which the apex keeps as it
    is. *)
Definition Rhomb_initialTiles_exn (cx cy : Z) (length : num)
  : result (list tile) :=
  let cx := (cx * 2 / 5)%Z in
  let width := length * math_sin (of_int 2 * math_pi / of_int 5) in
  let height := length * PHI in
  cxf <- float_of_int cx ;;
  let left := cxf - width / of_int 2 in
  let right := cxf + width / of_int 2 in
  cyf <- float_of_int cy ;;
  let '(top, bottom) := (cyf - height / of_int 2, cyf + height / of_int 2) in
  ret [Acute (left, of_int cy) (right, top) (right, bottom)].

(** [refreshTiles(data)]: the state the call leaves, and the exception it
    raises, if any.  Whatever raises does so before [data.tiles] is assigned,
    so that the state is then the one the call was given.  The loop raises
    nothing: [deflate] and [goldenMidpoint] only add, subtract and multiply
    floats. *)
Definition refreshTiles_exn (d : data) : data * option exn :=
  let '(cx, cy) := ((width d / 2)%Z, (height d / 2)%Z) in
  match initialLength d with
  | inl e => (d, Some e)
  | inr initialLength =>
      let assigned : result data :=
        if (tileType d =? "Kite & Dart")%string then
          ts <- KiteDart_initialTiles_exn cx cy initialLength ;;
          ret (set_tiles d ts)
        else if (tileType d =? "Rhombs")%string then
          ts <- Rhomb_initialTiles_exn cx cy initialLength ;;
          ret (set_tiles d ts)
        else ret d in
      match assigned with
      | inl e => (d, Some e)
      | inr d => (for_range (depth d) deflateTiles d, None)
      end
  end.

(** The seed constructor matching a family, with its exceptions. *)
Definition seed_of_exn (f : family) (cx cy : Z) (length : num)
  : result (list tile) :=
  match f with
  | KiteDart => KiteDart_initialTiles_exn cx cy length
  | Rhomb => Rhomb_initialTiles_exn cx cy length
  end.

(** Line 156 raises nothing: neither the power, nor the conversion of
    [baseLength], nor the division. *)
Definition initialLength_ok (d : data) : Prop :=
  pow_exn PHI (depth d) = None /\
  of_int_exn (baseLength d) = None /\
  div_exn (of_int (baseLength d)) (PHI ** depth d) = None.

(** The seed constructor of a family raises nothing at the centre
    [(cx, cy)]: the integers it mixes with floats can be converted. *)
Definition seed_ok (f : family) (cx cy : Z) : Prop :=
  match f with
  | KiteDart =>
      of_int_exn (cx * 2 / 5) = None /\ of_int_exn (cy * 2 / 5) = None
  | Rhomb => of_int_exn (cx * 2 / 5) = None /\ of_int_exn cy = None
  end.

End Exceptions.

(** ** Over the real numbers *)

(** Real numbers raise nothing but the division by zero and the negative
    power of zero. *)
#[export] Instance RRaising : Raising RArith := {|
  of_int_exn := fun _ => None;
  div_exn := fun _ y =>
    if Req_dec_T y 0 then Some ZeroDivisionError else None;
  pow_exn := fun x n =>
    if Req_dec_T x 0
    then if (n <? 0)%Z then Some ZeroDivisionError else None
    else None
|}.

(** Real numbers with the range of binary64 numbers in the two operations
    of line 156 that leave it.  An integer or a power whose magnitude reaches
    [2^1024 - 2^970] is rounded out of the range: [OverflowError].  A power
    whose magnitude is at most [2^-1075], half the least positive number, is
    rounded to zero, and raises nothing. *)
Definition float_limit : Z := (2 ^ 1024 - 2 ^ 970)%Z.

Definition pow_ranged (x : R) (n : Z) : R :=
  if Rle_dec (Rabs (powerRZ x n)) (/ 2 ^ 1075) then 0%R else powerRZ x n.

Definition RangedArith : Arith := {|
  num := R;
  num_add := Rplus;
  num_sub := Rminus;
  num_mul := Rmult;
  num_div := Rdiv;
  num_pow := pow_ranged;
  of_int := IZR;
  math_sqrt := sqrt;
  math_sin := sin;
  math_cos := cos;
  math_pi := PI
|}.

Definition RangedRaising : Raising RangedArith := {|
  of_int_exn := fun n =>
    if (float_limit <=? Z.abs n)%Z then Some OverflowError else None;
  div_exn := fun (_ y : @num RangedArith) =>
    if Req_dec_T (y : R) 0 then Some ZeroDivisionError else None;
  pow_exn := fun (x : @num RangedArith) n =>
    if (float_limit <=? Z.abs n)%Z then Some OverflowError
    else if Req_dec_T (x : R) 0
    then if (n <? 0)%Z then Some ZeroDivisionError else None
    else if Rle_dec (IZR float_limit) (Rabs (powerRZ x n))
    then Some OverflowError
    else None
|}.

(** The state of [run(800, 500)] at a depth, in this arithmetic. *)
Definition ranged_canvas (ty : string) (n : Z) : @data RangedArith :=
  mkData 800 500 10000 [] ty 30 n.

(** The state of [run(800, 500)] with the base length 30 of [init], a tile
    type and a depth, and no tiles yet: what [refreshTiles] starts from. *)
Definition canvas (ty : string) (n : Z) : @data RArith :=
  mkData 800 500 10000 [] ty 30 n.

(** The square of the distance between two points. *)
Definition sq_dist (p q : @point RArith) : R :=
  ((fst q - fst p) * (fst q - fst p) + (snd q - snd p) * (snd q - snd p))%R.

(** The shape of a half-tile of a tiling of size [s]: an isosceles triangle
    whose equal sides meet at the apex.  A half kite and an acute Robinson
    triangle have legs [s] and base [PHI s]; a half dart has legs [PHI s] and
    base [s]; an obtuse Robinson triangle has legs [s] and base
    [(1 + PHI) s].  Lengths are given by their squares. *)
Definition golden_shape (s : R) (t : @tile RArith) : Prop :=
  let leg1 := sq_dist (apex t) (vertex1 t) in
  let leg2 := sq_dist (apex t) (vertex2 t) in
  let base := sq_dist (vertex1 t) (vertex2 t) in
  match variant_of t with
  | VKite | VAcute =>
      leg1 = s * s /\ leg2 = s * s /\
      base = (@PHI RArith * s) * (@PHI RArith * s)
  | VDart =>
      leg1 = (@PHI RArith * s) * (@PHI RArith * s) /\
      leg2 = (@PHI RArith * s) * (@PHI RArith * s) /\
      base = s * s
  | VObtuse =>
      leg1 = s * s /\ leg2 = s * s /\
      base = ((1 + @PHI RArith) * s) * ((1 + @PHI RArith) * s)
  end%R.

(** Twice the signed area of the triangle [a b c], and the area of a tile
    and of a list of tiles. *)
Definition cross (a b c : @point RArith) : R :=
  ((fst b - fst a) * (snd c - snd a) - (snd b - snd a) * (fst c - fst a))%R.

Definition tile_area (t : @tile RArith) : R :=
  (Rabs (cross (apex t) (vertex1 t) (vertex2 t)) / 2)%R.

Definition tiles_area (ts : list (@tile RArith)) : R :=
  fold_right (fun t acc => (tile_area t + acc)%R) 0%R ts.

(** The half-plane [n . p <= c], and the tiles whose three vertices lie in
    it. *)
Definition in_halfplane (n : @point RArith) (c : R) (p : @point RArith)
  : Prop :=
  (fst n * fst p + snd n * snd p <= c)%R.

Definition tile_in_halfplane (n : @point RArith) (c : R) (t : @tile RArith)
  : Prop :=
  in_halfplane n c (apex t) /\ in_halfplane n c (vertex1 t) /\
  in_halfplane n c (vertex2 t).

(** The axis-parallel box with the corners [lo] and [hi], and the tiles whose
    three vertices lie in it. *)
Definition in_box (lo hi p : @point RArith) : Prop :=
  (fst lo <= fst p <= fst hi /\ snd lo <= snd p <= snd hi)%R.

Definition tile_in_box (lo hi : @point RArith) (t : @tile RArith) : Prop :=
  in_box lo hi (apex t) /\ in_box lo hi (vertex1 t) /\
  in_box lo hi (vertex2 t).

(** * Properties *)

Section Substitution.

Context {A : Arith}.

Local Open Scope num_scope.

(** ** The golden-section point *)

(** C7: [goldenMidpoint A B] is [A + phi (B - A)], componentwise, with
    [phi = (sqrt 5 - 1) / 2]. *)
Theorem goldenMidpoint_interpolates :
  forall a b : point,
    goldenMidpoint a b = point_add a (point_scale PHI (point_sub b a)) /\
    fst (goldenMidpoint a b) = fst a + PHI * (fst b - fst a) /\
    snd (goldenMidpoint a b) = snd a + PHI * (snd b - snd a) /\
    PHI = (math_sqrt (of_int 5) - of_int 1) / of_int 2.
Proof.
  intros [x1 y1] [x2 y2].
  unfold goldenMidpoint, point_add, point_scale, point_sub; cbn [fst snd].
  repeat split.
Qed.

(** ** The substitution rules *)

(** C1: the children of a half kite and of a half dart, in order, and the
    assignment of the constructor's arguments to [apex], [vertex1],
    [vertex2]. *)
Theorem deflate_Kite_Dart :
  forall a v1 v2 : point,
    (let P1 := goldenMidpoint v1 a in
     let P2 := goldenMidpoint a v2 in
     deflate (Kite a v1 v2) = [Dart P1 P2 a; Kite v1 P1 P2; Kite v1 v2 P2]) /\
    (let P := goldenMidpoint v2 v1 in
     deflate (Dart a v1 v2) = [Kite v2 P a; Dart P a v1]) /\
    (apex (Kite a v1 v2), vertex1 (Kite a v1 v2), vertex2 (Kite a v1 v2))
      = (a, v1, v2) /\
    (apex (Dart a v1 v2), vertex1 (Dart a v1 v2), vertex2 (Dart a v1 v2))
      = (a, v1, v2).
Proof.
  intros a v1 v2; repeat split.
Qed.

(** C2: the children of an acute and of an obtuse Robinson triangle, in
    order, and the assignment of the constructor's arguments to [apex],
    [vertex1], [vertex2]. *)
Theorem deflate_Acute_Obtuse :
  forall a v1 v2 : point,
    (let P := goldenMidpoint a v1 in
     deflate (Acute a v1 v2) = [Obtuse P v2 a; Acute v2 P v1]) /\
    (let P1 := goldenMidpoint v1 a in
     let P2 := goldenMidpoint v1 v2 in
     deflate (Obtuse a v1 v2)
       = [Obtuse P1 P2 v1; Acute P2 P1 a; Obtuse P2 v2 a]) /\
    (apex (Acute a v1 v2), vertex1 (Acute a v1 v2), vertex2 (Acute a v1 v2))
      = (a, v1, v2) /\
    (apex (Obtuse a v1 v2), vertex1 (Obtuse a v1 v2),
     vertex2 (Obtuse a v1 v2)) = (a, v1, v2).
Proof.
  intros a v1 v2; repeat split.
Qed.

End Substitution.

Section Regeneration.

Context {A : Arith}.

Local Open Scope num_scope.

(** ** The state after a handler *)

Lemma set_tiles_tiles (d : data) (ts : list tile) : tiles (set_tiles d ts) = ts.
Proof. reflexivity. Qed.

Lemma set_tiles_twice (d : data) (ts ts' : list tile) :
  set_tiles (set_tiles d ts) ts' = set_tiles d ts'.
Proof. reflexivity. Qed.

Lemma set_tiles_same (d : data) : set_tiles d (tiles d) = d.
Proof. now destruct d. Qed.

(** The loop of [deflateTiles] appends, to what it has so far, the children
    of the tiles it runs over. *)
Lemma deflate_loop_extend (ts acc : list tile) :
  fold_left (fun newTiles tile => newTiles ++ deflate tile) ts acc
  = acc ++ next_generation ts.
Proof.
  revert acc; induction ts as [|t ts IH]; intros acc; cbn.
  - now rewrite app_nil_r.
  - rewrite IH; unfold next_generation; cbn.
    now rewrite <- app_assoc.
Qed.

Lemma deflateTiles_next_generation (d : data) :
  deflateTiles d = set_tiles d (next_generation (tiles d)).
Proof.
  unfold deflateTiles; now rewrite deflate_loop_extend.
Qed.

Lemma generations_succ (n : nat) (ts : list tile) :
  generations (S n) ts = next_generation (generations n ts).
Proof.
  revert ts; induction n as [|n IH]; intros ts.
  - reflexivity.
  - change (generations (S (S n)) ts)
      with (generations (S n) (next_generation ts)).
    now rewrite IH.
Qed.

Lemma iter_deflateTiles (n : nat) (d : data) :
  Nat.iter n deflateTiles d = set_tiles d (generations n (tiles d)).
Proof.
  induction n as [|n IH].
  - cbn; now rewrite set_tiles_same.
  - rewrite generations_succ; cbn [Nat.iter nat_rect].
    change (nat_rect (fun _ => data) d (fun _ => deflateTiles) n)
      with (Nat.iter n deflateTiles d).
    rewrite IH, deflateTiles_next_generation.
    now rewrite set_tiles_tiles, set_tiles_twice.
Qed.

Lemma for_range_deflateTiles (n : Z) (d : data) :
  for_range n deflateTiles d
  = set_tiles d (generations (Z.to_nat n) (tiles d)).
Proof. apply iter_deflateTiles. Qed.

(** [refreshTiles] changes no attribute but [tiles]. *)
Lemma refreshTiles_frame (d : data) :
  exists ts, refreshTiles d = set_tiles d ts.
Proof.
  unfold refreshTiles; cbn zeta.
  destruct (tileType d =? "Kite & Dart")%string;
    [|destruct (tileType d =? "Rhombs")%string];
    rewrite for_range_deflateTiles; eexists; reflexivity.
Qed.

Lemma refreshTiles_depth (d : data) : depth (refreshTiles d) = depth d.
Proof. destruct (refreshTiles_frame d) as [ts ->]; reflexivity. Qed.

Lemma refreshTiles_tileType (d : data) :
  tileType (refreshTiles d) = tileType d.
Proof. destruct (refreshTiles_frame d) as [ts ->]; reflexivity. Qed.

(** With the label of a family in [tileType], [refreshTiles] stores the
    tiling the regeneration algorithm describes. *)
Lemma refreshTiles_regenerate (d : data) (f : family) :
  tileType d = label f ->
  refreshTiles d
  = set_tiles d (regenerate f (depth d) (baseLength d) (width d) (height d)).
Proof.
  intros Hty; unfold refreshTiles, regenerate, initial_length; cbn zeta.
  rewrite Hty; destruct f; cbn [label String.eqb Ascii.eqb Bool.eqb seed_of];
    now rewrite for_range_deflateTiles.
Qed.

(** ** Classes and families along the substitution *)

Lemma deflate_variant_of (t : tile) :
  map variant_of (deflate t) = deflate_variants (variant_of t).
Proof. now destruct t. Qed.

Lemma deflate_family_of (t : tile) :
  Forall (fun c => family_of c = family_of t) (deflate t).
Proof. destruct t; repeat constructor. Qed.

Lemma next_generation_family (f : family) (ts : list tile) :
  Forall (fun t => family_of t = f) ts ->
  Forall (fun t => family_of t = f) (next_generation ts).
Proof.
  unfold next_generation; induction 1 as [|t ts Ht _ IH]; cbn.
  - constructor.
  - apply Forall_app; split; [|exact IH].
    rewrite <- Ht; apply deflate_family_of.
Qed.

Lemma generations_family (f : family) (n : nat) (ts : list tile) :
  Forall (fun t => family_of t = f) ts ->
  Forall (fun t => family_of t = f) (generations n ts).
Proof.
  revert ts; induction n as [|n IH]; intros ts Hts; cbn.
  - exact Hts.
  - now apply IH, next_generation_family.
Qed.

Lemma seed_of_family (f : family) (cx cy : Z) (len : num) :
  Forall (fun t => family_of t = f) (seed_of f cx cy len).
Proof. destruct f; repeat constructor. Qed.

Lemma seed_of_single (f : family) (cx cy : Z) (len : num) :
  List.length (seed_of f cx cy len) = 1%nat.
Proof. now destruct f. Qed.

(** The first generations of an acute triangle. *)
Lemma generations_Acute (a v1 v2 : point) :
  map variant_of (generations 0 [Acute a v1 v2]) = [VAcute] /\
  map variant_of (generations 1 [Acute a v1 v2]) = [VObtuse; VAcute] /\
  map variant_of (generations 2 [Acute a v1 v2])
    = [VObtuse; VAcute; VObtuse; VObtuse; VAcute].
Proof. repeat split. Qed.

Lemma generations_Acute_length (a v1 v2 : point) :
  List.length (generations 2 [Acute a v1 v2]) = 5%nat.
Proof. reflexivity. Qed.

(** Every state the event loop reaches is at rest: [tileType] is the label
    of a family, [depth] is not negative, and [tiles] is the tiling the
    regeneration algorithm describes for them. *)
Lemma reachable_at_rest (w h : Z) (d : data) :
  reachable w h d ->
  exists f,
    tileType d = label f /\ (0 <= depth d)%Z /\
    tiles d = regenerate f (depth d) (baseLength d) (width d) (height d).
Proof.
  induction 1 as [|keysym d _ (f & Hty & Hdepth & Htiles)].
  - exists Rhomb; unfold run_data, init.
    rewrite (@refreshTiles_regenerate _ Rhomb) by reflexivity.
    cbn; repeat split; lia.
  - unfold keyPressed.
    destruct (keysym =? "Up")%string.
    { exists f; rewrite (@refreshTiles_regenerate _ f) by exact Hty.
      cbn; repeat split; [exact Hty | lia]. }
    destruct (keysym =? "Down")%string.
    { destruct (depth d >? 0)%Z eqn:Hpos.
      - exists f; rewrite (@refreshTiles_regenerate _ f) by exact Hty.
        apply Z.gtb_lt in Hpos.
        cbn; repeat split; [exact Hty | lia].
      - exists f; auto. }
    destruct (keysym =? "Tab")%string.
    { rewrite Hty; destruct f; cbn [label String.eqb Ascii.eqb Bool.eqb].
      - exists Rhomb; rewrite (@refreshTiles_regenerate _ Rhomb) by reflexivity.
        cbn; repeat split; exact Hdepth.
      - exists KiteDart;
          rewrite (@refreshTiles_regenerate _ KiteDart) by reflexivity.
        cbn; repeat split; exact Hdepth. }
    exists f; auto.
Qed.

(** ** Regeneration *)

(** C9: the tiles [refreshTiles] stores are determined by the tile type, the
    depth, the base length and the canvas size; nothing else of the state
    (the tiles it held before, the timer delay) has any influence. *)
Theorem refreshTiles_deterministic (d1 d2 : data) (f : family) :
  tileType d1 = label f ->
  tileType d2 = tileType d1 ->
  depth d2 = depth d1 ->
  baseLength d2 = baseLength d1 ->
  width d2 = width d1 ->
  height d2 = height d1 ->
  tiles (refreshTiles d1) = tiles (refreshTiles d2).
Proof.
  intros Hty Hty2 Hdepth Hbase Hw Hh.
  rewrite (refreshTiles_regenerate d1 f Hty).
  rewrite (refreshTiles_regenerate d2 f) by congruence.
  cbn [tiles set_tiles]; congruence.
Qed.

(** ** Key presses *)

(** C8: at depth 0 the key Down leaves the whole state as it is, tiles
    included; at a positive depth it takes one from the depth and runs
    [refreshTiles]. *)
Theorem keyPressed_Down (d : data) :
  (depth d = 0%Z -> keyPressed "Down" d = d) /\
  ((0 < depth d)%Z ->
   keyPressed "Down" d = refreshTiles (set_depth d (depth d - 1)) /\
   depth (keyPressed "Down" d) = (depth d - 1)%Z).
Proof.
  unfold keyPressed; cbn [String.eqb Ascii.eqb Bool.eqb]; split.
  - now intros ->.
  - intros Hpos; apply Z.gtb_lt in Hpos; rewrite Hpos.
    split; [reflexivity|apply refreshTiles_depth].
Qed.

(** ** Families and counts *)

(** C10: the children of a kite or dart are kites and darts, the children of
    an acute or obtuse triangle are acute and obtuse triangles; hence the
    tiles [refreshTiles] stores, and the tiles of every state the event loop
    reaches, are all of the family of the tile type. *)
Theorem family_homogeneity :
  (forall t : tile,
     family_of t = KiteDart ->
     Forall (fun c => variant_of c = VKite \/ variant_of c = VDart)
       (deflate t)) /\
  (forall t : tile,
     family_of t = Rhomb ->
     Forall (fun c => variant_of c = VAcute \/ variant_of c = VObtuse)
       (deflate t)) /\
  (forall (d : data) (f : family),
     tileType d = label f ->
     Forall (fun t => family_of t = f) (tiles (refreshTiles d))) /\
  (forall (w h : Z) (d : data),
     reachable w h d ->
     exists f, tileType d = label f /\
               Forall (fun t => family_of t = f) (tiles d)).
Proof.
  split; [|split; [|split]].
  - intros [a v1 v2|a v1 v2|a v1 v2|a v1 v2] Hf; try discriminate Hf;
      cbn; repeat (apply Forall_cons || apply Forall_nil); auto.
  - intros [a v1 v2|a v1 v2|a v1 v2|a v1 v2] Hf; try discriminate Hf;
      cbn; repeat (apply Forall_cons || apply Forall_nil); auto.
  - intros d f Hty; rewrite (refreshTiles_regenerate d f Hty).
    apply generations_family, seed_of_family.
  - intros w h d Hd.
    destruct (reachable_at_rest Hd) as (f & Hty & _ & ->).
    exists f; split; [exact Hty|].
    apply generations_family, seed_of_family.
Qed.

(** C5 (amended): from one acute triangle the generations are one acute
    triangle, then an obtuse and an acute one, then five tiles: obtuse,
    acute, obtuse, obtuse, acute.  The same holds of [refreshTiles] for
    rhombs at depths 0, 1 and 2. *)
Theorem rhomb_generations (d : data) (a v1 v2 : point) :
  map variant_of (tiles (Nat.iter 0 deflateTiles (set_tiles d [Acute a v1 v2])))
    = [VAcute] /\
  map variant_of (tiles (Nat.iter 1 deflateTiles (set_tiles d [Acute a v1 v2])))
    = [VObtuse; VAcute] /\
  map variant_of (tiles (Nat.iter 2 deflateTiles (set_tiles d [Acute a v1 v2])))
    = [VObtuse; VAcute; VObtuse; VObtuse; VAcute] /\
  List.length
    (tiles (Nat.iter 2 deflateTiles (set_tiles d [Acute a v1 v2]))) = 5%nat /\
  List.length
    (tiles (refreshTiles (set_depth (set_tileType d "Rhombs") 0))) = 1%nat /\
  List.length
    (tiles (refreshTiles (set_depth (set_tileType d "Rhombs") 1))) = 2%nat /\
  List.length
    (tiles (refreshTiles (set_depth (set_tileType d "Rhombs") 2))) = 5%nat.
Proof.
  rewrite !iter_deflateTiles, !set_tiles_tiles.
  destruct (generations_Acute a v1 v2) as (H0 & H1 & H2).
  repeat split; assumption || reflexivity.
Qed.

End Regeneration.

(** * The seeds, over the real numbers *)

Section Seeds.

Local Open Scope R_scope.

(** ** Constants *)

Lemma PHI_real : @PHI RArith = (sqrt 5 - 1) / 2.
Proof. reflexivity. Qed.

Lemma sqrt5_bounds : 2.236 < sqrt 5 < 2.2361.
Proof.
  assert (H : sqrt 5 * sqrt 5 = 5) by (apply sqrt_sqrt; lra).
  assert (H0 : 0 <= sqrt 5) by apply sqrt_pos.
  split; nra.
Qed.

(** [PHI] is the reciprocal of the golden ratio: it lies between 0 and 1 and
    its square is [1 - PHI]. *)
Lemma PHI_golden :
  0.618 < @PHI RArith < 0.61805 /\ @PHI RArith * @PHI RArith = 1 - @PHI RArith.
Proof.
  rewrite PHI_real; pose proof sqrt5_bounds as Hb.
  assert (H : sqrt 5 * sqrt 5 = 5) by (apply sqrt_sqrt; lra).
  split; [lra | nra].
Qed.

Lemma sin_PI5_pos : 0 < sin (PI / 5).
Proof. pose proof PI_RGT_0; apply sin_gt_0; lra. Qed.

Lemma cos_PI5_pos : 0 < cos (PI / 5).
Proof. pose proof PI_RGT_0; apply cos_gt_0; lra. Qed.

Lemma sin_2PI5_pos : 0 < sin (2 * PI / 5).
Proof. pose proof PI_RGT_0; apply sin_gt_0; lra. Qed.

Lemma sin_PI5_lt_cos_PI5 : sin (PI / 5) < cos (PI / 5).
Proof.
  pose proof PI_RGT_0 as Hpi.
  apply Rlt_trans with (sin (PI / 4)).
  - apply sin_increasing_1; lra.
  - rewrite sin_cos_PI4; apply cos_decreasing_1; lra.
Qed.

Lemma sin2_cos2_1 (x : R) : sin x * sin x + cos x * cos x = 1.
Proof. exact (sin2_cos2 x). Qed.

(** The cosine of 72 degrees is half of [PHI]. *)
Lemma cos_2PI5 : cos (2 * PI / 5) = (sqrt 5 - 1) / 4.
Proof.
  pose proof PI_RGT_0 as Hpi.
  set (t := 2 * PI / 5).
  assert (Hs : 0 < sin t) by (apply sin_gt_0; unfold t; lra).
  assert (Hc : 0 < cos t) by (apply cos_gt_0; unfold t; lra).
  pose proof (sin2_cos2_1 t) as Hsc.
  assert (H3 : cos (2 * t + t) = cos (2 * t)).
  { replace (2 * t + t) with (2 * PI - 2 * t) by (unfold t; lra).
    rewrite cos_minus, cos_2PI, sin_2PI; lra. }
  rewrite cos_plus, cos_2a_cos, sin_2a in H3.
  assert (Hlt : cos t < 1) by nra.
  assert (Hcs : cos t * (sin t * sin t) = cos t * (1 - cos t * cos t))
    by (replace (1 - cos t * cos t) with (sin t * sin t) by lra; ring).
  assert (Hf : (cos t - 1) * (4 * (cos t * cos t) + 2 * cos t - 1) = 0)
    by nra.
  assert (Hq : 4 * (cos t * cos t) + 2 * cos t - 1 = 0).
  { destruct (Rmult_integral _ _ Hf); lra. }
  assert (H5 : sqrt 5 = 4 * cos t + 1) by (apply sqrt_lem_1; nra).
  lra.
Qed.

Lemma sin_2PI5_bounds : 0.95105 < sin (2 * PI / 5) < 0.9511.
Proof.
  pose proof sin_2PI5_pos as Hs.
  pose proof (sin2_cos2_1 (2 * PI / 5)) as Hsc.
  pose proof sqrt5_bounds as Hb.
  rewrite cos_2PI5 in Hsc.
  split; nra.
Qed.

(** ** The half kite *)

Lemma KiteDart_seed_real (cx cy : Z) (len : R) :
  @KiteDart_initialTiles RArith cx cy len
  = [Kite (IZR (cx * 2 / 5) - len / 2,
           IZR (cy * 2 / 5) + len * sin (PI / 5) / 2)
          (IZR (cx * 2 / 5) - len / 2 + len * cos (PI / 5),
           IZR (cy * 2 / 5) - len * sin (PI / 5) / 2)
          (IZR (cx * 2 / 5) + len / 2,
           IZR (cy * 2 / 5) + len * sin (PI / 5) / 2)].
Proof. reflexivity. Qed.

Lemma Rhomb_seed_real (cx cy : Z) (len : R) :
  @Rhomb_initialTiles RArith cx cy len
  = [Acute (IZR (cx * 2 / 5) - len * sin (2 * PI / 5) / 2, IZR cy)
           (IZR (cx * 2 / 5) + len * sin (2 * PI / 5) / 2,
            IZR cy - len * @PHI RArith / 2)
           (IZR (cx * 2 / 5) + len * sin (2 * PI / 5) / 2,
            IZR cy + len * @PHI RArith / 2)].
Proof. reflexivity. Qed.

Lemma point_eq (x y x' y' : R) : x = x' -> y = y' -> (x, y) = (x', y').
Proof. now intros -> ->. Qed.

Ltac tiles_eq := do 2 f_equal; apply point_eq; lra.

(** The two sides that meet at the apex of the half kite have the length the
    constructor was given: the triangle is isosceles at its [apex]. *)
Lemma KiteDart_seed_legs (cx cy : Z) (len : R) :
  Forall (fun t => sq_dist (apex t) (vertex1 t) = len * len /\
                   sq_dist (apex t) (vertex2 t) = len * len)
    (@KiteDart_initialTiles RArith cx cy len).
Proof.
  rewrite KiteDart_seed_real; repeat constructor;
    unfold sq_dist; cbn [apex vertex1 vertex2 fst snd].
  - pose proof (sin2_cos2_1 (PI / 5)) as H; nra.
  - nra.
Qed.

(** C3 (amended): the seed of a kite-and-dart tiling is one half kite whose
    [apex] is the bottom-left corner, whose [vertex1] is the top point and
    whose [vertex2] is the bottom-right corner; the top point lies
    [length * sin (pi/5)] above the bottom side and [length * cos (pi/5)] to
    the right of the bottom-left corner. *)
Theorem KiteDart_seed (cx cy : Z) (len : R) :
  0 < len ->
  exists left right top bottom midX : R,
    top < bottom /\ left < midX < right /\
    @KiteDart_initialTiles RArith cx cy len
      = [Kite (left, bottom) (midX, top) (right, bottom)] /\
    bottom - top = len * sin (PI / 5) /\
    midX - left = len * cos (PI / 5).
Proof.
  intros Hlen; rewrite KiteDart_seed_real.
  pose proof sin_PI5_pos as Hs; pose proof cos_PI5_pos as Hc.
  pose proof (sin2_cos2_1 (PI / 5)) as Hsc.
  assert (Hc1 : cos (PI / 5) < 1) by nra.
  do 5 eexists; split; [|split; [|split; [reflexivity|]]].
  - nra.
  - nra.
  - split; lra.
Qed.

(** ** The acute Robinson triangle *)

(** The two sides that meet at the apex have the length the constructor was
    given, and the side opposite has [PHI] times that length. *)
Lemma Rhomb_seed_legs (cx cy : Z) (len : R) :
  Forall (fun t => sq_dist (apex t) (vertex1 t) = len * len /\
                   sq_dist (apex t) (vertex2 t) = len * len /\
                   sq_dist (vertex1 t) (vertex2 t)
                   = (len * @PHI RArith) * (len * @PHI RArith))
    (@Rhomb_initialTiles RArith cx cy len).
Proof.
  rewrite Rhomb_seed_real; repeat constructor;
    unfold sq_dist; cbn [apex vertex1 vertex2 fst snd];
    pose proof (sin2_cos2_1 (2 * PI / 5)) as H;
    rewrite cos_2PI5 in H; rewrite PHI_real; nra.
Qed.

Lemma rhomb_scenario_seed :
  tiles (refreshTiles (canvas "Rhombs" 0))
  = @Rhomb_initialTiles RArith 400 250 (30 / 1).
Proof.
  now rewrite (refreshTiles_regenerate (canvas "Rhombs" 0) Rhomb eq_refl).
Qed.

(** C4 (amended): at depth 0, base length 30 and centre (400, 250) the
    rhomb tiling is one acute triangle with its apex at
    [(160 - 30 sin 72 / 2, 250)], about (145.7, 250), and its two other
    vertices at [x = 160 + 30 sin 72 / 2], about 174.3, and
    [y = 250 -+ 30 PHI / 2], about 240.7 and 259.3. *)
Theorem rhomb_scenario :
  tiles (refreshTiles (canvas "Rhombs" 0))
  = [Acute (160 - 30 * sin (2 * PI / 5) / 2, 250)
           (160 + 30 * sin (2 * PI / 5) / 2, 250 - 30 * @PHI RArith / 2)
           (160 + 30 * sin (2 * PI / 5) / 2, 250 + 30 * @PHI RArith / 2)] /\
  145.73 < 160 - 30 * sin (2 * PI / 5) / 2 < 145.74 /\
  174.26 < 160 + 30 * sin (2 * PI / 5) / 2 < 174.27 /\
  240.72 < 250 - 30 * @PHI RArith / 2 < 240.74 /\
  259.26 < 250 + 30 * @PHI RArith / 2 < 259.28.
Proof.
  pose proof sin_2PI5_bounds as Hs.
  destruct PHI_golden as [Hphi _].
  split; [|repeat split; lra].
  rewrite rhomb_scenario_seed, Rhomb_seed_real.
  change (IZR (400 * 2 / 5)) with 160.
  tiles_eq.
Qed.

(** ** The statements the code does not satisfy *)

(** C3, as stated, fails at centre (400, 250) and length 30: the seed is not
    a half kite with [apex] at the top point and [vertex1] at the bottom-left
    corner, of height [30 cos (pi/5)] and apex offset [30 sin (pi/5)]. *)
Lemma KiteDart_seed_not_as_stated :
  ~ (exists left right top bottom midX : R,
       top < bottom /\ left < right /\
       @KiteDart_initialTiles RArith 400 250 30
         = [Kite (midX, top) (left, bottom) (right, bottom)] /\
       bottom - top = 30 * cos (PI / 5) /\
       midX - left = 30 * sin (PI / 5)).
Proof.
  intros (l & r & t & b & m & Htb & _ & Heq & _ & _).
  rewrite KiteDart_seed_real in Heq.
  injection Heq; intros.
  pose proof sin_PI5_pos; lra.
Qed.

(** Nor is it so with the fields as the code assigns them: the height of the
    seed is not [30 cos (pi/5)] and the offset of its top point is not
    [30 sin (pi/5)]. *)
Lemma KiteDart_seed_sin_cos :
  Forall (fun t =>
            snd (apex t) - snd (vertex1 t) <> 30 * cos (PI / 5) /\
            fst (vertex1 t) - fst (apex t) <> 30 * sin (PI / 5))
    (@KiteDart_initialTiles RArith 400 250 30).
Proof.
  rewrite KiteDart_seed_real; repeat constructor;
    cbn [apex vertex1 fst snd]; pose proof sin_PI5_lt_cos_PI5; lra.
Qed.

(** C4, as stated, fails: the apex is not at (160, 250) and the other
    vertices are not at [x = 160 + 30 sin 72]. *)
Lemma rhomb_scenario_not_as_stated :
  tiles (refreshTiles (canvas "Rhombs" 0))
  <> [Acute (160, 250)
            (160 + 30 * sin (2 * PI / 5), 250 - 30 * @PHI RArith / 2)
            (160 + 30 * sin (2 * PI / 5), 250 + 30 * @PHI RArith / 2)].
Proof.
  rewrite rhomb_scenario_seed, Rhomb_seed_real.
  change (IZR (400 * 2 / 5)) with 160.
  intros Heq; injection Heq; intros.
  pose proof sin_2PI5_pos; lra.
Qed.

(** C5, as stated, fails on the seed of the rhomb tiling: two steps give
    five tiles, not three. *)
Lemma rhomb_depth2_not_three_tiles :
  ~ (map variant_of
       (tiles (Nat.iter 0 deflateTiles (refreshTiles (canvas "Rhombs" 0))))
     = [VAcute] /\
     map variant_of
       (tiles (Nat.iter 1 deflateTiles (refreshTiles (canvas "Rhombs" 0))))
     = [VObtuse; VAcute] /\
     List.length
       (tiles (Nat.iter 2 deflateTiles (refreshTiles (canvas "Rhombs" 0))))
     = 3%nat).
Proof.
  intros (_ & _ & H).
  rewrite iter_deflateTiles, set_tiles_tiles, rhomb_scenario_seed in H.
  rewrite Rhomb_seed_real, generations_Acute_length in H.
  discriminate H.
Qed.

(** ** Instances on the canvas of [run(800, 500)] *)

Lemma KiteDart_seed_witness :
  0 < 30 /\
  exists left right top bottom midX : R,
    top < bottom /\ left < midX < right /\
    @KiteDart_initialTiles RArith 400 250 30
      = [Kite (left, bottom) (midX, top) (right, bottom)] /\
    bottom - top = 30 * sin (PI / 5) /\
    midX - left = 30 * cos (PI / 5).
Proof.
  split; [lra | apply (KiteDart_seed 400 250); lra].
Defined.

Lemma refreshTiles_deterministic_witness :
  tiles (refreshTiles (canvas "Rhombs" 2))
  = tiles
      (refreshTiles
         (set_tiles (canvas "Rhombs" 2) [Kite (0, 0) (1, 0) (0, 1)])).
Proof.
  apply (@refreshTiles_deterministic RArith _ _ Rhomb); reflexivity.
Defined.

Lemma keyPressed_Down_witness :
  keyPressed "Down" (canvas "Rhombs" 0) = canvas "Rhombs" 0 /\
  keyPressed "Down" (canvas "Rhombs" 1) = refreshTiles (canvas "Rhombs" 0) /\
  refreshTiles (canvas "Rhombs" 0) <> canvas "Rhombs" 0.
Proof.
  split; [|split].
  - apply (proj1 (keyPressed_Down (canvas "Rhombs" 0))); reflexivity.
  - apply (proj2 (keyPressed_Down (canvas "Rhombs" 1))); cbn; lia.
  - intros H; apply (f_equal (fun d => List.length (tiles d))) in H.
    rewrite rhomb_scenario_seed in H; discriminate H.
Defined.

Lemma family_homogeneity_witness :
  Forall (fun t => family_of t = KiteDart)
    (tiles (refreshTiles (canvas "Kite & Dart" 3))).
Proof.
  apply (proj1 (proj2 (proj2 (@family_homogeneity RArith)))); reflexivity.
Defined.

End Seeds.

(** * How the tiling grows *)

Section Growth.

Context {A : Arith}.

Local Open Scope nat_scope.

Lemma count_variant_app (v : variant) (ts us : list tile) :
  count_variant v (ts ++ us) = count_variant v ts + count_variant v us.
Proof. unfold count_variant; now rewrite filter_app, length_app. Qed.

Lemma count_variant_total (ts : list tile) :
  List.length ts
  = count_variant VKite ts + count_variant VDart ts
    + count_variant VAcute ts + count_variant VObtuse ts.
Proof.
  unfold count_variant; induction ts as [|t ts IH]; [reflexivity|].
  destruct t; cbn; lia.
Qed.

(** The substitution matrix: the counts of a generation from those of the
    one before. *)
Lemma next_generation_counts (ts : list tile) :
  count_variant VKite (next_generation ts)
  = 2 * count_variant VKite ts + count_variant VDart ts /\
  count_variant VDart (next_generation ts)
  = count_variant VKite ts + count_variant VDart ts /\
  count_variant VAcute (next_generation ts)
  = count_variant VAcute ts + count_variant VObtuse ts /\
  count_variant VObtuse (next_generation ts)
  = count_variant VAcute ts + 2 * count_variant VObtuse ts.
Proof.
  unfold next_generation; induction ts as [|t ts (IHk & IHd & IHa & IHo)].
  - repeat split.
  - cbn [map List.concat]; rewrite !count_variant_app, IHk, IHd, IHa, IHo.
    destruct t; cbn; unfold count_variant; repeat split; lia.
Qed.

Lemma fib_step (n : nat) : fib (S (S n)) = fib (S n) + fib n.
Proof. reflexivity. Qed.

Lemma generations_counts (n : nat) (ts : list tile) :
  let k := count_variant VKite ts in
  let d := count_variant VDart ts in
  let a := count_variant VAcute ts in
  let o := count_variant VObtuse ts in
  count_variant VKite (generations n ts)
  = fib (2 * n + 1) * k + fib (2 * n) * d /\
  count_variant VDart (generations n ts) + fib (2 * n) * d
  = fib (2 * n) * k + fib (2 * n + 1) * d /\
  count_variant VAcute (generations n ts) + fib (2 * n) * a
  = fib (2 * n + 1) * a + fib (2 * n) * o /\
  count_variant VObtuse (generations n ts)
  = fib (2 * n) * a + fib (2 * n + 1) * o.
Proof.
  cbv zeta; induction n as [|n (IHk & IHd & IHa & IHo)].
  - cbn; unfold count_variant; repeat split; lia.
  - rewrite generations_succ.
    destruct (next_generation_counts (generations n ts)) as (Hk & Hd & Ha & Ho).
    rewrite Hk, Hd, Ha, Ho.
    replace (2 * S n + 1) with (S (S (S (2 * n)))) by lia.
    replace (2 * S n) with (S (S (2 * n))) by lia.
    replace (2 * n + 1) with (S (2 * n)) in * by lia.
    rewrite !fib_step.
    repeat split; lia.
Qed.

Lemma next_generation_length_bounds (ts : list tile) :
  2 * List.length ts <= List.length (next_generation ts) /\
  List.length (next_generation ts) <= 3 * List.length ts.
Proof.
  destruct (next_generation_counts ts) as (Hk & Hd & Ha & Ho).
  rewrite (count_variant_total (next_generation ts)).
  rewrite (count_variant_total ts), Hk, Hd, Ha, Ho; lia.
Qed.

Lemma generations_length_lower (n : nat) (ts : list tile) :
  2 ^ n * List.length ts <= List.length (generations n ts).
Proof.
  induction n as [|n IH].
  - cbn; lia.
  - rewrite generations_succ, Nat.pow_succ_r'.
    destruct (next_generation_length_bounds (generations n ts)) as (Hlo & _).
    lia.
Qed.

Lemma seed_of_counts (f : family) (cx cy : Z) (len : num) :
  count_variant VKite (seed_of f cx cy len)
  = match f with KiteDart => 1 | Rhomb => 0 end /\
  count_variant VDart (seed_of f cx cy len) = 0 /\
  count_variant VAcute (seed_of f cx cy len)
  = match f with KiteDart => 0 | Rhomb => 1 end /\
  count_variant VObtuse (seed_of f cx cy len) = 0.
Proof. destruct f; repeat split. Qed.

(** ** One step *)

(** X1: the substitution matrix of [deflateTiles]: a kite gives two kites and a
    dart, a dart a kite and a dart, an acute triangle an acute and an obtuse
    one, an obtuse triangle an acute and two obtuse ones. *)
Theorem deflateTiles_counts (d : data) :
  count_variant VKite (tiles (deflateTiles d))
  = 2 * count_variant VKite (tiles d) + count_variant VDart (tiles d) /\
  count_variant VDart (tiles (deflateTiles d))
  = count_variant VKite (tiles d) + count_variant VDart (tiles d) /\
  count_variant VAcute (tiles (deflateTiles d))
  = count_variant VAcute (tiles d) + count_variant VObtuse (tiles d) /\
  count_variant VObtuse (tiles (deflateTiles d))
  = count_variant VAcute (tiles d) + 2 * count_variant VObtuse (tiles d).
Proof.
  rewrite deflateTiles_next_generation, set_tiles_tiles.
  apply next_generation_counts.
Qed.

(** X2: [deflateTiles] at least doubles and at most triples the number of
    tiles; without tiles it leaves the state as it is. *)
Theorem deflateTiles_length_bounds (d : data) :
  2 * List.length (tiles d) <= List.length (tiles (deflateTiles d))
  /\ List.length (tiles (deflateTiles d)) <= 3 * List.length (tiles d)
  /\ (tiles d = [] -> deflateTiles d = d).
Proof.
  rewrite deflateTiles_next_generation, set_tiles_tiles.
  destruct (next_generation_length_bounds (tiles d)) as (Hlo & Hhi).
  split; [exact Hlo | split; [exact Hhi |]].
  intros Hnil; rewrite Hnil; change (next_generation []) with (@nil tile).
  rewrite <- Hnil; apply set_tiles_same.
Qed.

(** ** A whole tiling *)

(** The tiling of a family at depth [n] has Fibonacci many tiles. *)
Lemma refreshTiles_fib (d : data) (f : family) :
  tileType d = label f ->
  let n := Z.to_nat (depth d) in
  let ts := tiles (refreshTiles d) in
  match f with
  | KiteDart =>
      count_variant VKite ts = fib (2 * n + 1) /\
      count_variant VDart ts = fib (2 * n) /\
      List.length ts = fib (2 * n + 2)
  | Rhomb =>
      count_variant VAcute ts + fib (2 * n) = fib (2 * n + 1) /\
      count_variant VObtuse ts = fib (2 * n) /\
      List.length ts = fib (2 * n + 1)
  end.
Proof.
  intros Hty n ts; subst ts.
  rewrite (refreshTiles_regenerate d f Hty), set_tiles_tiles.
  unfold regenerate; fold n.
  set (seed := seed_of f (width d / 2) (height d / 2)
                 (initial_length (baseLength d) (depth d))).
  destruct (generations_counts n seed) as (Hk & Hd & Ha & Ho).
  destruct (seed_of_counts f (width d / 2) (height d / 2)
              (initial_length (baseLength d) (depth d)))
    as (Sk & Sd & Sa & So).
  fold seed in Sk, Sd, Sa, So; rewrite Sk, Sd, Sa, So in *.
  rewrite (count_variant_total (generations n seed)).
  replace (2 * n + 2) with (S (S (2 * n))) by lia.
  replace (2 * n + 1) with (S (2 * n)) in * by lia.
  rewrite ?fib_step.
  destruct f; lia.
Qed.

End Growth.

(** * Key presses and the states they lead to *)

Section Keys.

Context {A : Arith}.

Local Open Scope Z_scope.

Lemma data_eq (d d' : data) :
  width d = width d' -> height d = height d' ->
  timerDelay d = timerDelay d' -> tiles d = tiles d' ->
  tileType d = tileType d' -> baseLength d = baseLength d' ->
  depth d = depth d' -> d = d'.
Proof. destruct d, d'; cbn; intros; subst; reflexivity. Qed.

Lemma reachable_frame (w h : Z) (d : data) :
  reachable w h d ->
  width d = w /\ height d = h /\ timerDelay d = 10000 /\ baseLength d = 30.
Proof.
  induction 1 as [|keysym d _ IH].
  - unfold run_data, init.
    destruct (refreshTiles_frame
                (set_depth
                   (set_baseLength
                      (set_tileType (set_tiles (mkData w h 10000 [] "" 0 0) [])
                         "Rhombs") 30) 0)) as [ts ->].
    repeat split.
  - unfold keyPressed.
    repeat match goal with
           | |- context [if ?b then _ else _] => destruct b
           | |- context [refreshTiles ?x] =>
               destruct (refreshTiles_frame x) as [? ->]
           end; exact IH.
Qed.

(** ** What the event loop can reach *)

(** X4: in every state the event loop reaches, the canvas size and the timer
    delay are those [run] was given, the base length is 30, the depth is not
    negative, the tile type is one of the two labels, and the tiles are the
    tiling of that type and depth. *)
Theorem reachable_invariants (w h : Z) (d : data) :
  reachable w h d ->
  width d = w /\ height d = h /\ timerDelay d = 10000 /\ baseLength d = 30 /\
  0 <= depth d /\
  (tileType d = "Rhombs"%string \/ tileType d = "Kite & Dart"%string) /\
  tiles (refreshTiles d) = tiles d.
Proof.
  intros Hd.
  destruct (reachable_frame Hd) as (Hw & Hh & Ht & Hb).
  destruct (reachable_at_rest Hd) as (f & Hty & Hdepth & Htiles).
  repeat (split; [assumption|]).
  split; [destruct f; auto|].
  now rewrite (refreshTiles_regenerate d f Hty), set_tiles_tiles.
Qed.

(** ** Keys that undo each other *)

(** X5: in a state the event loop reaches, Down undoes Up, Tab undoes Tab, and,
    at a positive depth, Up undoes Down: the whole state, tiles included, is
    as before. *)
Theorem keyPressed_round_trips (w h : Z) (d : data) :
  reachable w h d ->
  keyPressed "Down" (keyPressed "Up" d) = d /\
  keyPressed "Tab" (keyPressed "Tab" d) = d /\
  (0 < depth d -> keyPressed "Up" (keyPressed "Down" d) = d).
Proof.
  intros Hd.
  destruct (reachable_at_rest Hd) as (f & Hty & Hdepth & Htiles).
  unfold keyPressed; cbn [String.eqb Ascii.eqb Bool.eqb].
  split; [|split].
  - rewrite (refreshTiles_regenerate (set_depth d (depth d + 1)) f Hty).
    cbn [depth set_tiles set_depth width height timerDelay tiles tileType
         baseLength].
    assert (Hpos : (depth d + 1 >? 0) = true) by (apply Z.gtb_lt; lia).
    rewrite Hpos.
    rewrite (@refreshTiles_regenerate _ _ f) by exact Hty.
    apply data_eq; cbn; try reflexivity; [|lia].
    rewrite Htiles; f_equal; lia.
  - set (other := if (tileType d =? "Rhombs")%string
                  then "Kite & Dart"%string else "Rhombs"%string).
    assert (Hother : exists g, other = label g /\
              (if (label g =? "Rhombs")%string
               then "Kite & Dart"%string else "Rhombs"%string) = label f).
    { subst other; rewrite Hty; destruct f;
        [exists Rhomb | exists KiteDart]; split; reflexivity. }
    destruct Hother as (g & Hg & Hback).
    rewrite (@refreshTiles_regenerate _ (set_tileType d other) g) by exact Hg.
    cbn [depth set_tiles set_tileType width height timerDelay tiles tileType
         baseLength].
    rewrite Hg, Hback.
    rewrite (@refreshTiles_regenerate _ _ f) by reflexivity.
    apply data_eq; cbn; try reflexivity; [|now rewrite Hty].
    now rewrite Htiles.
  - intros Hpos.
    assert (Hgt : (depth d >? 0) = true) by (apply Z.gtb_lt; lia).
    rewrite Hgt.
    rewrite (refreshTiles_regenerate (set_depth d (depth d - 1)) f Hty).
    cbn [depth set_tiles set_depth width height timerDelay tiles tileType
         baseLength].
    rewrite (@refreshTiles_regenerate _ _ f) by exact Hty.
    apply data_eq; cbn; try reflexivity; [|lia].
    rewrite Htiles; f_equal; lia.
Qed.

(** ** Keys without effect *)

(** X6: no key changes the canvas size, the timer delay or the base length, and
    a key other than Up, Down and Tab changes nothing at all; the names of
    the keys are compared as they are, so that [up] is not Up. *)
Theorem keyPressed_frame (keysym : string) (d : data) :
  (width (keyPressed keysym d) = width d /\
   height (keyPressed keysym d) = height d /\
   timerDelay (keyPressed keysym d) = timerDelay d /\
   baseLength (keyPressed keysym d) = baseLength d) /\
  (keysym <> "Up"%string -> keysym <> "Down"%string ->
   keysym <> "Tab"%string -> keyPressed keysym d = d).
Proof.
  split.
  - unfold keyPressed.
    repeat match goal with
           | |- context [if ?b then _ else _] => destruct b
           | |- context [refreshTiles ?x] =>
               destruct (refreshTiles_frame x) as [? ->]
           end; repeat split.
  - intros Hu Hd Ht; unfold keyPressed.
    apply String.eqb_neq in Hu, Hd, Ht.
    now rewrite Hu, Hd, Ht.
Qed.

(** ** Calling [refreshTiles] again *)

(** X7: with one of the two labels in [tileType], a second call of
    [refreshTiles] changes nothing. *)
Theorem refreshTiles_idempotent (d : data) (f : family) :
  tileType d = label f ->
  refreshTiles (refreshTiles d) = refreshTiles d.
Proof.
  intros Hty.
  rewrite (refreshTiles_regenerate d f Hty).
  now rewrite (@refreshTiles_regenerate _ _ f) by exact Hty.
Qed.

(** With any other value in [tileType] no seed is built. *)
Lemma refreshTiles_other_tileType (d : data) :
  tileType d <> "Kite & Dart"%string ->
  tileType d <> "Rhombs"%string ->
  refreshTiles d = Nat.iter (Z.to_nat (depth d)) deflateTiles d /\
  tiles (refreshTiles d) = generations (Z.to_nat (depth d)) (tiles d) /\
  (2 ^ Z.to_nat (depth d) * List.length (tiles d)
   <= List.length (tiles (refreshTiles d)))%nat.
Proof.
  intros Hk Hr; apply String.eqb_neq in Hk, Hr.
  assert (Heq : refreshTiles d = Nat.iter (Z.to_nat (depth d)) deflateTiles d).
  { unfold refreshTiles; cbn zeta; now rewrite Hk, Hr. }
  rewrite Heq, iter_deflateTiles, set_tiles_tiles.
  split; [reflexivity | split; [reflexivity |]].
  apply generations_length_lower.
Qed.

(** At a depth that is not positive [range(depth)] is empty. *)
Lemma refreshTiles_seed_alone (d : data) (f : family) :
  tileType d = label f ->
  depth d <= 0 ->
  tiles (refreshTiles d)
  = seed_of f (width d / 2) (height d / 2)
      (of_int (baseLength d) / PHI ** depth d)%num /\
  List.length (tiles (refreshTiles d)) = 1%nat.
Proof.
  intros Hty Hdepth.
  rewrite (refreshTiles_regenerate d f Hty), set_tiles_tiles.
  unfold regenerate, initial_length.
  replace (Z.to_nat (depth d)) with 0%nat by lia.
  split; [reflexivity | apply seed_of_single].
Qed.

End Keys.

(** * The picture *)

Section Drawing.

Context {A : Arith}.

Local Open Scope nat_scope.

Lemma draw_app (t : tile) (canvas : list item) :
  draw t canvas = canvas ++ fill_items t.
Proof.
  unfold fill_items, draw, Isoceles_draw.
  destruct (family_of t); cbn [app]; now rewrite <- app_assoc.
Qed.

Lemma drawLines_app (t : tile) (canvas : list item) :
  drawLines t canvas = canvas ++ outline_items t.
Proof. unfold outline_items, drawLines; now destruct (family_of t). Qed.

Lemma draw_loop (ts : list tile) (canvas : list item) :
  fold_left (fun canvas tile => draw tile canvas) ts canvas
  = canvas ++ flat_map fill_items ts.
Proof.
  revert canvas; induction ts as [|t ts IH]; intros canvas; cbn.
  - now rewrite app_nil_r.
  - now rewrite IH, draw_app, <- app_assoc.
Qed.

Lemma drawLines_loop (ts : list tile) (canvas : list item) :
  fold_left (fun canvas tile => drawLines tile canvas) ts canvas
  = canvas ++ flat_map outline_items ts.
Proof.
  revert canvas; induction ts as [|t ts IH]; intros canvas; cbn.
  - now rewrite app_nil_r.
  - now rewrite IH, drawLines_app, <- app_assoc.
Qed.

Lemma fill_items_length (ts : list tile) :
  List.length (flat_map fill_items ts) = 2 * List.length ts.
Proof.
  induction ts as [|t ts IH]; [reflexivity|].
  cbn [flat_map]; rewrite length_app, IH.
  destruct t; cbn; lia.
Qed.

Lemma outline_items_length (ts : list tile) :
  List.length (flat_map outline_items ts) = List.length ts.
Proof.
  induction ts as [|t ts IH]; [reflexivity|].
  cbn [flat_map]; rewrite length_app, IH.
  destruct t; cbn; lia.
Qed.

Lemma redrawAll_app (canvas : list item) (d : data) :
  redrawAll canvas d
  = canvas ++ flat_map fill_items (tiles d)
      ++ flat_map outline_items (tiles d)
      ++ [create_text (width d / 2) 10 "n"
            ("Tile type: " ++ tileType d ++ "  |  Depth: "
               ++ format_d (depth d))%string;
          create_text (width d / 2) (height d - 10) "s"
            "Press Up, Down or Tab"].
Proof.
  unfold redrawAll; cbv zeta.
  rewrite draw_loop, drawLines_loop, <- !app_assoc; reflexivity.
Qed.

Lemma redrawAllWrapper_length (canvas : list item) (d : data) :
  List.length (redrawAllWrapper canvas d) = 3 * List.length (tiles d) + 3.
Proof.
  unfold redrawAllWrapper, delete_ALL; cbv zeta.
  rewrite redrawAll_app, !length_app, fill_items_length, outline_items_length.
  cbn [List.length app]; lia.
Qed.

Lemma handle_model (st : list item * data) (e : event) :
  snd (handle st e)
  = fold_left (fun d keysym => keyPressed keysym d) (key_presses [e]) (snd st).
Proof. destruct st as [canvas d], e; reflexivity. Qed.

Lemma handle_view (st : list item * data) (e : event) :
  fst (handle st e) = redrawAllWrapper [] (snd (handle st e)).
Proof. destruct st as [canvas d], e; reflexivity. Qed.

Lemma run_snoc (w h : Z) (events : list event) (e : event) :
  run w h (events ++ [e]) = handle (run w h events) e.
Proof. unfold run; cbv zeta; now rewrite fold_left_app. Qed.

Lemma key_presses_app (es es' : list event) :
  key_presses (es ++ es') = (key_presses es ++ key_presses es')%list.
Proof. apply flat_map_app. Qed.

Lemma run_reachable (w h : Z) (events : list event) :
  reachable w h (snd (run w h events)).
Proof.
  induction events as [|e events IH] using rev_ind.
  - apply reachable_run.
  - rewrite run_snoc; destruct (run w h events) as [canvas d].
    destruct e; cbn in *; try exact IH.
    now apply reachable_key.
Qed.

(** ** The layers of a drawing *)

(** X10: [redrawAll] keeps the items the canvas holds and puts on top of them,
    in this order: for each tile its polygon and, in the colour of the
    polygon, the side along which it meets its mirror image; then, for each
    tile, the two other sides as one outline; then the two texts.  So no
    outline is hidden by a polygon, and no outline runs along the side two
    halves of a tile share. *)
Theorem redrawAll_layers (canvas : list item) (d : data) :
  redrawAll canvas d
  = canvas ++ flat_map fill_items (tiles d)
      ++ flat_map outline_items (tiles d)
      ++ [create_text (width d / 2) 10 "n"
            ("Tile type: " ++ tileType d ++ "  |  Depth: "
               ++ format_d (depth d))%string;
          create_text (width d / 2) (height d - 10) "s"
            "Press Up, Down or Tab"] /\
  (forall t : tile,
     exists p q r : point,
       ((p, q, r) = (apex t, vertex1 t, vertex2 t) /\ family_of t = KiteDart
        \/ (p, q, r) = (vertex1 t, apex t, vertex2 t) /\ family_of t = Rhomb)
       /\ fill_items t
          = [create_polygon [apex t; vertex1 t; vertex2 t] (color t);
             create_line [p; r] 2 None (color t)]
       /\ outline_items t
          = [create_line [p; q; r] 1 (Some "round"%string) (lineColor t)]) /\
  List.length (redrawAll canvas d)
  = List.length canvas + 3 * List.length (tiles d) + 2.
Proof.
  split; [apply redrawAll_app | split].
  - intros t; destruct t as [a v1 v2|a v1 v2|a v1 v2|a v1 v2].
    + exists a, v1, v2; split; [left|]; repeat split.
    + exists a, v1, v2; split; [left|]; repeat split.
    + exists v1, a, v2; split; [right|]; repeat split.
    + exists v1, a, v2; split; [right|]; repeat split.
  - rewrite redrawAll_app, !length_app, fill_items_length.
    rewrite outline_items_length; cbn [List.length]; lia.
Qed.

(** ** The event loop *)

(** X11: only key presses change the state: after any events the state is
    the one the key presses among them lead to from the initial state,
    whatever clicks and timer events came between. *)
Theorem run_model (w h : Z) (events : list event) :
  snd (run w h events)
  = fold_left (fun d keysym => keyPressed keysym d) (key_presses events)
      (run_data w h) /\
  reachable w h (snd (run w h events)).
Proof.
  split; [|apply run_reachable].
  induction events as [|e events IH] using rev_ind.
  - reflexivity.
  - now rewrite run_snoc, handle_model, key_presses_app, fold_left_app, <- IH.
Qed.

(** X12: after every event the canvas holds the drawing of the current state and
    nothing else: the white background, two items for the inside of each
    tile, one for its outline, and the two texts.  Items of earlier drawings
    do not pile up. *)
Theorem run_view (w h : Z) (events : list event) :
  let '(canvas, d) := run w h events in
  canvas = redrawAllWrapper [] d /\
  canvas
  = create_rectangle 0 0 w h "white" 0 :: redrawAll [] d /\
  List.length canvas = 3 * List.length (tiles d) + 3.
Proof.
  destruct (run w h events) as [canvas d] eqn:Hrun.
  assert (Hview : canvas = redrawAllWrapper [] d).
  { destruct events as [|e events _] using rev_ind.
    - unfold run in Hrun; cbn [fold_left] in Hrun.
      now injection Hrun as <- <-.
    - rewrite run_snoc in Hrun.
      pose proof (handle_view (run w h events) e) as Hv.
      now rewrite Hrun in Hv. }
  assert (Hd : reachable w h d).
  { pose proof (run_reachable w h events) as Hr.
    now rewrite Hrun in Hr. }
  destruct (reachable_frame Hd) as (Hw & Hh & _).
  split; [exact Hview | split].
  - rewrite Hview; unfold redrawAllWrapper, delete_ALL; cbv zeta.
    rewrite !redrawAll_app, Hw, Hh; reflexivity.
  - rewrite Hview; apply redrawAllWrapper_length.
Qed.

End Drawing.

(** * The geometry of the tiling, over the real numbers *)

Section Geometry.

Local Open Scope R_scope.

Lemma goldenMidpoint_real (a b : @point RArith) :
  goldenMidpoint a b
  = (fst a + @PHI RArith * (fst b - fst a),
     snd a + @PHI RArith * (snd b - snd a)).
Proof. now destruct a, b. Qed.

Lemma PHI_square : @PHI RArith * @PHI RArith = 1 - @PHI RArith.
Proof. exact (proj2 PHI_golden). Qed.

Lemma PHI_unit : 0 < @PHI RArith < 1.
Proof. destruct PHI_golden as [H _]; lra. Qed.

(** The cosine of 36 degrees. *)
Lemma cos_PI5 : cos (PI / 5) = (1 + sqrt 5) / 4.
Proof.
  pose proof cos_PI5_pos as Hc.
  pose proof cos_2PI5 as H2.
  replace (2 * PI / 5) with (2 * (PI / 5)) in H2 by lra.
  rewrite cos_2a_cos in H2.
  pose proof sqrt5_bounds as Hb.
  assert (H5 : sqrt 5 * sqrt 5 = 5) by (apply sqrt_sqrt; lra).
  assert (Hf : (cos (PI / 5) - (1 + sqrt 5) / 4)
               * (cos (PI / 5) + (1 + sqrt 5) / 4) = 0) by nra.
  destruct (Rmult_integral _ _ Hf); lra.
Qed.

Ltac golden_algebra :=
  pose proof PHI_square;
  unfold sq_dist in *; rewrite ?goldenMidpoint_real;
  cbn [fst snd apex vertex1 vertex2] in *;
  generalize dependent (@PHI RArith); intros; nsatz.

(** ** The golden section *)

(** X13: [goldenMidpoint A B] lies on the segment from [A] to [B] and divides it
    in the golden section: its distance from [A] is [PHI] times the length
    of the segment, and its distance from [B] is [PHI] times its distance
    from [A]. *)
Theorem goldenMidpoint_golden_section (a b : @point RArith) :
  let p := goldenMidpoint a b in
  0 < @PHI RArith < 1 /\
  p = ((1 - @PHI RArith) * fst a + @PHI RArith * fst b,
       (1 - @PHI RArith) * snd a + @PHI RArith * snd b) /\
  sq_dist a p = (@PHI RArith * @PHI RArith) * sq_dist a b /\
  sq_dist p b = (@PHI RArith * @PHI RArith) * sq_dist a p.
Proof.
  cbv zeta; split; [exact PHI_unit | split; [|split]].
  - rewrite goldenMidpoint_real; apply point_eq; ring.
  - golden_algebra.
  - golden_algebra.
Qed.

(** ** The shape of the tiles *)

Lemma seed_golden_shape (f : family) (cx cy : Z) (len : R) :
  Forall (golden_shape len) (@seed_of RArith f cx cy len).
Proof.
  destruct f; cbn [seed_of].
  - pose proof (KiteDart_seed_legs cx cy len) as Hlegs.
    rewrite KiteDart_seed_real in *.
    apply Forall_inv in Hlegs; destruct Hlegs as [H1 H2].
    apply Forall_cons; [|apply Forall_nil].
    unfold golden_shape; cbn [variant_of]; cbv zeta.
    split; [exact H1 | split; [exact H2 |]].
    unfold sq_dist; cbn [apex vertex1 vertex2 fst snd].
    pose proof (sin2_cos2_1 (PI / 5)) as Hsc.
    rewrite PHI_real; pose proof cos_PI5 as Hc.
    assert (H5 : sqrt 5 * sqrt 5 = 5) by (apply sqrt_sqrt; lra).
    rewrite Hc in *; nra.
  - pose proof (Rhomb_seed_legs cx cy len) as Hlegs.
    rewrite Rhomb_seed_real in *.
    apply Forall_inv in Hlegs; destruct Hlegs as (H1 & H2 & H3).
    apply Forall_cons; [|apply Forall_nil].
    unfold golden_shape; cbn [variant_of]; cbv zeta.
    split; [exact H1 | split; [exact H2 | rewrite H3; ring]].
Qed.

Lemma deflate_golden (s : R) (t : @tile RArith) :
  golden_shape s t ->
  Forall (golden_shape (@PHI RArith * s)) (deflate t).
Proof.
  unfold golden_shape; cbv zeta.
  destruct t as [a v1 v2|a v1 v2|a v1 v2|a v1 v2];
    cbn [variant_of apex vertex1 vertex2 deflate]; intros (H1 & H2 & H3);
    repeat (apply Forall_cons || apply Forall_nil);
    cbn [variant_of apex vertex1 vertex2]; repeat split;
    destruct a as [ax ay], v1 as [bx b_y], v2 as [cx cy];
    golden_algebra.
Qed.

Lemma generations_golden (s : R) (n : nat) (ts : list (@tile RArith)) :
  Forall (golden_shape s) ts ->
  Forall (golden_shape (@PHI RArith ^ n * s)) (generations n ts).
Proof.
  revert s ts; induction n as [|n IH]; intros s ts Hts.
  - cbn [generations pow]; now rewrite Rmult_1_l.
  - cbn [generations pow].
    replace (@PHI RArith * @PHI RArith ^ n * s)
      with (@PHI RArith ^ n * (@PHI RArith * s)) by ring.
    apply IH; unfold next_generation.
    induction Hts as [|t ts Ht _ IHts]; cbn [map List.concat].
    + apply Forall_nil.
    + apply Forall_app; split; [now apply deflate_golden | exact IHts].
Qed.

(** X14: deflation keeps the shapes and shrinks them by the factor [PHI]: if
    the tiles of a state are half-tiles of a tiling of size [s], then after
    [deflateTiles] they are half-tiles of a tiling of size [PHI s]. *)
Theorem deflateTiles_golden_shape (s : R) (d : @data RArith) :
  Forall (golden_shape s) (tiles d) ->
  Forall (golden_shape (@PHI RArith * s)) (tiles (deflateTiles d)).
Proof.
  intros Hts; rewrite deflateTiles_next_generation, set_tiles_tiles.
  apply (@generations_golden s 1) in Hts.
  cbn [pow generations] in Hts; now rewrite Rmult_1_r in Hts.
Qed.

Lemma PHI_pow_scale (b : Z) (n : Z) :
  (0 <= n)%Z ->
  @PHI RArith ^ Z.to_nat n * @initial_length RArith b n = IZR b.
Proof.
  intros Hn; unfold initial_length; cbn [num_div num_pow of_int RArith].
  rewrite <- (Z2Nat.id n) at 2 by exact Hn.
  rewrite <- pow_powerRZ.
  field; apply pow_nonzero; pose proof PHI_unit; lra.
Qed.

(** X15: whatever the depth, the tiles [refreshTiles] stores have the size
    [baseLength]: the sides of every rhomb, and the long sides of every kite
    and dart, have length [baseLength], the seed being [1 / PHI ** depth]
    times as large. *)
Theorem refreshTiles_golden_shape (d : @data RArith) (f : family) :
  tileType d = label f ->
  (0 <= depth d)%Z ->
  Forall (golden_shape (IZR (baseLength d))) (tiles (refreshTiles d)).
Proof.
  intros Hty Hdepth.
  rewrite (refreshTiles_regenerate d f Hty), set_tiles_tiles.
  unfold regenerate.
  rewrite <- (PHI_pow_scale (baseLength d) Hdepth).
  apply generations_golden, seed_golden_shape.
Qed.

(** ** Area *)

Lemma Rabs_scale (k x : R) : 0 <= k -> Rabs (k * x) = k * Rabs x.
Proof. intros Hk; now rewrite Rabs_mult, (Rabs_pos_eq k). Qed.

Lemma Rabs_scale_opp (k x : R) : 0 <= k -> Rabs (- k * x) = k * Rabs x.
Proof.
  intros Hk; replace (- k * x) with (- (k * x)) by ring.
  rewrite Rabs_Ropp; now apply Rabs_scale.
Qed.

Lemma tiles_area_app (ts us : list (@tile RArith)) :
  tiles_area (ts ++ us) = tiles_area ts + tiles_area us.
Proof.
  unfold tiles_area; induction ts as [|t ts IH]; cbn [app fold_right].
  - ring.
  - rewrite IH; ring.
Qed.

Ltac cross_scale k x :=
  match goal with
  | |- context [Rabs ?c] =>
      match c with
      | context [@goldenMidpoint RArith] =>
          replace c with (k * x) by
            (unfold cross; rewrite ?goldenMidpoint_real; cbn [fst snd]; ring)
      end
  end.

(** The children of a tile cover as much as the tile. *)
Lemma deflate_area (t : @tile RArith) : tiles_area (deflate t) = tile_area t.
Proof.
  pose proof PHI_unit as Hphi.
  assert (H1 : 0 <= @PHI RArith) by lra.
  assert (H2 : 0 <= 1 - @PHI RArith) by lra.
  assert (H3 : 0 <= @PHI RArith * (1 - @PHI RArith)) by nra.
  assert (H4 : 0 <= @PHI RArith * @PHI RArith) by nra.
  destruct t as [a v1 v2|a v1 v2|a v1 v2|a v1 v2];
    unfold tiles_area, tile_area;
    cbn [deflate fold_right apex vertex1 vertex2].
  - cross_scale (@PHI RArith * (1 - @PHI RArith)) (cross a v1 v2).
    cross_scale (- (@PHI RArith * @PHI RArith)) (cross a v1 v2).
    cross_scale (1 - @PHI RArith) (cross a v1 v2).
    rewrite ?Rabs_scale_opp by assumption.
    rewrite ?Rabs_scale by assumption; lra.
  - cross_scale (- @PHI RArith) (cross a v1 v2).
    cross_scale (1 - @PHI RArith) (cross a v1 v2).
    rewrite ?Rabs_scale_opp by assumption.
    rewrite ?Rabs_scale by assumption; lra.
  - cross_scale (@PHI RArith) (cross a v1 v2).
    cross_scale (1 - @PHI RArith) (cross a v1 v2).
    rewrite ?Rabs_scale by assumption; lra.
  - cross_scale (- (@PHI RArith * @PHI RArith)) (cross a v1 v2).
    cross_scale (- (@PHI RArith * (1 - @PHI RArith))) (cross a v1 v2).
    cross_scale (1 - @PHI RArith) (cross a v1 v2).
    rewrite ?Rabs_scale_opp by assumption.
    rewrite ?Rabs_scale by assumption; lra.
Qed.

Lemma next_generation_area (ts : list (@tile RArith)) :
  tiles_area (next_generation ts) = tiles_area ts.
Proof.
  unfold next_generation; induction ts as [|t ts IH]; [reflexivity|].
  cbn [map List.concat]; rewrite tiles_area_app, deflate_area, IH.
  reflexivity.
Qed.

(** X16: deflation neither gains nor loses area: the tiles after any number of
    calls of [deflateTiles] cover as much as the tiles before. *)
Theorem deflateTiles_area (n : nat) (d : @data RArith) :
  tiles_area (tiles (Nat.iter n deflateTiles d)) = tiles_area (tiles d).
Proof.
  rewrite iter_deflateTiles, set_tiles_tiles.
  induction n as [|n IH]; [reflexivity|].
  now rewrite generations_succ, next_generation_area.
Qed.

(** ** Where the tiles lie *)

Lemma goldenMidpoint_halfplane (n : @point RArith) (c : R)
  (a b : @point RArith) :
  in_halfplane n c a -> in_halfplane n c b ->
  in_halfplane n c (goldenMidpoint a b).
Proof.
  unfold in_halfplane; rewrite goldenMidpoint_real; cbn [fst snd].
  intros Ha Hb; pose proof PHI_unit as Hphi.
  assert (H1 : 0 <= (1 - @PHI RArith) * (c - (fst n * fst a + snd n * snd a)))
    by (apply Rmult_le_pos; lra).
  assert (H2 : 0 <= @PHI RArith * (c - (fst n * fst b + snd n * snd b)))
    by (apply Rmult_le_pos; lra).
  lra.
Qed.

Lemma deflate_halfplane (n : @point RArith) (c : R) (t : @tile RArith) :
  tile_in_halfplane n c t -> Forall (tile_in_halfplane n c) (deflate t).
Proof.
  unfold tile_in_halfplane.
  destruct t as [a v1 v2|a v1 v2|a v1 v2|a v1 v2];
    cbn [apex vertex1 vertex2 deflate]; intros (Ha & H1 & H2);
    repeat (apply Forall_cons || apply Forall_nil);
    cbn [apex vertex1 vertex2]; repeat split;
    assumption || (apply goldenMidpoint_halfplane; assumption).
Qed.

Lemma next_generation_halfplane (n : @point RArith) (c : R)
  (ts : list (@tile RArith)) :
  Forall (tile_in_halfplane n c) ts ->
  Forall (tile_in_halfplane n c) (next_generation ts).
Proof.
  unfold next_generation; induction 1 as [|t ts Ht _ IH];
    cbn [map List.concat].
  - apply Forall_nil.
  - apply Forall_app; split; [now apply deflate_halfplane | exact IH].
Qed.

(** X17: deflation never leaves the convex hull of the tiles: a half-plane that
    contains every vertex of every tile of a state contains every vertex of
    every tile after any number of calls of [deflateTiles]. *)
Theorem deflateTiles_halfplane (n : @point RArith) (c : R) (k : nat)
  (d : @data RArith) :
  Forall (tile_in_halfplane n c) (tiles d) ->
  Forall (tile_in_halfplane n c) (tiles (Nat.iter k deflateTiles d)).
Proof.
  intros Hts; rewrite iter_deflateTiles, set_tiles_tiles.
  induction k as [|k IH]; [exact Hts|].
  rewrite generations_succ; now apply next_generation_halfplane.
Qed.

Lemma generations_halfplane (n : @point RArith) (c : R) (k : nat)
  (ts : list (@tile RArith)) :
  Forall (tile_in_halfplane n c) ts ->
  Forall (tile_in_halfplane n c) (generations k ts).
Proof.
  intros Hts; induction k as [|k IH]; [exact Hts|].
  rewrite generations_succ; now apply next_generation_halfplane.
Qed.

Lemma tile_in_box_halfplanes (lo hi : @point RArith) (t : @tile RArith) :
  tile_in_box lo hi t <->
  tile_in_halfplane (1, 0) (fst hi) t /\
  tile_in_halfplane (-1, 0) (- fst lo) t /\
  tile_in_halfplane (0, 1) (snd hi) t /\
  tile_in_halfplane (0, -1) (- snd lo) t.
Proof.
  unfold tile_in_box, in_box, tile_in_halfplane, in_halfplane; cbn [fst snd].
  split; intros H; repeat split; lra.
Qed.

Lemma generations_box (lo hi : @point RArith) (k : nat)
  (ts : list (@tile RArith)) :
  Forall (tile_in_box lo hi) ts ->
  Forall (tile_in_box lo hi) (generations k ts).
Proof.
  intros Hts.
  assert (Hall : forall n c,
             (forall t, tile_in_box lo hi t -> tile_in_halfplane n c t) ->
             Forall (tile_in_halfplane n c) (generations k ts)).
  { intros n c Himp; apply generations_halfplane.
    eapply Forall_impl; [exact Himp | exact Hts]. }
  apply Forall_forall; intros t Ht.
  pose proof (fun n c Himp =>
                proj1 (Forall_forall _ _) (Hall n c Himp) t Ht) as Hin.
  apply tile_in_box_halfplanes.
  split; [|split; [|split]]; apply Hin; intros u Hu;
    apply tile_in_box_halfplanes in Hu; tauto.
Qed.

(** X18: where [refreshTiles] puts the tiling: with a base length that is not
    negative, every vertex of every tile lies in the bounding box of the
    seed.  For kites and darts its centre is
    [(width // 2 * 2 // 5, height // 2 * 2 // 5)] and its sides are [l] and
    [l sin 36]; for rhombs its centre is [(width // 2 * 2 // 5, height // 2)]
    and its sides are [l sin 72] and [l PHI]; [l] is
    [baseLength / PHI ** depth]. *)
Theorem refreshTiles_bounding_box (d : @data RArith) (f : family) :
  tileType d = label f ->
  (0 <= depth d)%Z ->
  (0 <= baseLength d)%Z ->
  let l := IZR (baseLength d) / powerRZ (@PHI RArith) (depth d) in
  let cx := IZR (width d / 2 * 2 / 5) in
  let cy :=
    match f with
    | KiteDart => IZR (height d / 2 * 2 / 5)
    | Rhomb => IZR (height d / 2)
    end in
  let w := match f with KiteDart => l | Rhomb => l * sin (2 * PI / 5) end in
  let h :=
    match f with
    | KiteDart => l * sin (PI / 5)
    | Rhomb => l * @PHI RArith
    end in
  Forall (tile_in_box (cx - w / 2, cy - h / 2) (cx + w / 2, cy + h / 2))
    (tiles (refreshTiles d)).
Proof.
  intros Hty Hdepth Hbase l cx cy w h.
  rewrite (refreshTiles_regenerate d f Hty), set_tiles_tiles.
  unfold regenerate; apply generations_box.
  assert (Hl : 0 <= l).
  { unfold l; apply Rmult_le_pos; [now apply IZR_le|].
    apply Rlt_le, Rinv_0_lt_compat, powerRZ_lt; apply PHI_unit. }
  change (@initial_length RArith (baseLength d) (depth d)) with l.
  pose proof PHI_unit as Hphi.
  pose proof sin_PI5_pos as Hs1; pose proof sin_2PI5_pos as Hs2.
  pose proof cos_PI5_pos as Hc1.
  pose proof (sin2_cos2_1 (PI / 5)) as Hsc.
  assert (Hc1' : cos (PI / 5) <= 1) by nra.
  subst cx cy w h; destruct f; cbn [seed_of].
  - rewrite KiteDart_seed_real.
    apply Forall_cons; [|apply Forall_nil].
    unfold tile_in_box, in_box; cbn [apex vertex1 vertex2 fst snd].
    repeat split; nra.
  - rewrite Rhomb_seed_real.
    apply Forall_cons; [|apply Forall_nil].
    unfold tile_in_box, in_box; cbn [apex vertex1 vertex2 fst snd].
    repeat split; nra.
Qed.

End Geometry.

(** * Regeneration and the exceptions of its arithmetic *)

Section Raises.

Context {A : Arith} {X : Raising A}.

Local Open Scope num_scope.

Lemma initialLength_ok_inr (d : data) :
  initialLength_ok d ->
  initialLength d = inr (of_int (baseLength d) / PHI ** depth d).
Proof.
  intros (Hp & Hb & Hd).
  unfold initialLength, checked_pow, float_of_int, checked_div.
  rewrite Hp; cbn [bind ret]; rewrite Hb; cbn [bind ret]; now rewrite Hd.
Qed.

Lemma initialLength_inr_ok (d : data) (l : num) :
  initialLength d = inr l ->
  initialLength_ok d /\ l = of_int (baseLength d) / PHI ** depth d.
Proof.
  unfold initialLength, initialLength_ok, checked_pow, float_of_int,
    checked_div.
  destruct (pow_exn PHI (depth d)); [discriminate|]; cbn [bind ret].
  destruct (of_int_exn (baseLength d)); [discriminate|]; cbn [bind ret].
  destruct (div_exn (of_int (baseLength d)) (PHI ** depth d));
    [discriminate|].
  intros [= <-]; repeat split.
Qed.

Lemma seed_ok_inr (f : family) (cx cy : Z) (l : num) :
  seed_ok f cx cy -> seed_of_exn f cx cy l = inr (seed_of f cx cy l).
Proof.
  destruct f; intros [Hx Hy]; cbn [seed_of_exn seed_of];
    unfold KiteDart_initialTiles_exn, Rhomb_initialTiles_exn, float_of_int;
    cbv zeta; rewrite Hx; cbn [bind ret]; rewrite Hy; reflexivity.
Qed.

Lemma seed_inr_ok (f : family) (cx cy : Z) (l : num) (ts : list tile) :
  seed_of_exn f cx cy l = inr ts ->
  seed_ok f cx cy /\ ts = seed_of f cx cy l.
Proof.
  destruct f; cbn [seed_of_exn seed_of seed_ok];
    unfold KiteDart_initialTiles_exn, Rhomb_initialTiles_exn, float_of_int;
    cbv zeta.
  - destruct (of_int_exn (cx * 2 / 5)); [discriminate|]; cbn [bind ret].
    destruct (of_int_exn (cy * 2 / 5)); [discriminate|]; cbn [bind ret].
    intros [= <-]; repeat split.
  - destruct (of_int_exn (cx * 2 / 5)); [discriminate|]; cbn [bind ret].
    destruct (of_int_exn cy); [discriminate|]; cbn [bind ret].
    intros [= <-]; repeat split.
Qed.

(** With the label of a family in [tileType]: line 156, then the seed, then
    the loop. *)
Lemma refreshTiles_exn_label (d : data) (f : family) :
  tileType d = label f ->
  refreshTiles_exn d
  = match initialLength d with
    | inl e => (d, Some e)
    | inr l =>
        match seed_of_exn f (width d / 2) (height d / 2) l with
        | inl e => (d, Some e)
        | inr ts => (for_range (depth d) deflateTiles (set_tiles d ts), None)
        end
    end.
Proof.
  intros Hty; unfold refreshTiles_exn; cbv zeta.
  destruct (initialLength d) as [e|l]; [reflexivity|].
  rewrite Hty; destruct f;
    cbn [label String.eqb Ascii.eqb Bool.eqb seed_of_exn].
  - destruct (KiteDart_initialTiles_exn (width d / 2) (height d / 2) l);
      reflexivity.
  - destruct (Rhomb_initialTiles_exn (width d / 2) (height d / 2) l);
      reflexivity.
Qed.

(** What raises leaves the state as it was; what returns leaves the state
    [refreshTiles] describes. *)
Lemma refreshTiles_exn_raises (d : data) (e : exn) :
  snd (refreshTiles_exn d) = Some e -> fst (refreshTiles_exn d) = d.
Proof.
  unfold refreshTiles_exn; cbv zeta.
  destruct (initialLength d) as [e'|l]; [reflexivity|].
  destruct (tileType d =? "Kite & Dart")%string;
    [|destruct (tileType d =? "Rhombs")%string].
  - destruct (KiteDart_initialTiles_exn (width d / 2) (height d / 2) l);
      cbn; [reflexivity | discriminate].
  - destruct (Rhomb_initialTiles_exn (width d / 2) (height d / 2) l);
      cbn; [reflexivity | discriminate].
  - cbn; discriminate.
Qed.

Lemma refreshTiles_exn_returns (d : data) :
  snd (refreshTiles_exn d) = None ->
  fst (refreshTiles_exn d) = refreshTiles d.
Proof.
  unfold refreshTiles_exn, refreshTiles; cbv zeta.
  destruct (initialLength d) as [e|l] eqn:Hl; [discriminate|].
  destruct (initialLength_inr_ok d Hl) as [_ ->].
  destruct (tileType d =? "Kite & Dart")%string;
    [|destruct (tileType d =? "Rhombs")%string].
  - destruct (KiteDart_initialTiles_exn (width d / 2) (height d / 2) _)
      as [e|ts] eqn:Hs; cbn; [discriminate|].
    destruct (@seed_inr_ok KiteDart _ _ _ _ Hs) as [_ ->]; reflexivity.
  - destruct (Rhomb_initialTiles_exn (width d / 2) (height d / 2) _)
      as [e|ts] eqn:Hs; cbn; [discriminate|].
    destruct (@seed_inr_ok Rhomb _ _ _ _ Hs) as [_ ->]; reflexivity.
  - reflexivity.
Qed.

Lemma refreshTiles_exn_ok (d : data) (f : family) :
  tileType d = label f ->
  initialLength_ok d ->
  seed_ok f (width d / 2) (height d / 2) ->
  refreshTiles_exn d = (refreshTiles d, None).
Proof.
  intros Hty Hl Hs.
  assert (H : snd (refreshTiles_exn d) = None).
  { rewrite (refreshTiles_exn_label d f Hty), (initialLength_ok_inr Hl).
    now rewrite (seed_ok_inr f _ _ _ Hs). }
  pose proof (refreshTiles_exn_returns d H) as Hfst.
  destruct (refreshTiles_exn d) as [d' o]; cbn in *; now subst.
Qed.

(** With another value in [tileType] only line 156 can raise. *)
Lemma refreshTiles_exn_other (d : data) :
  tileType d <> "Kite & Dart"%string ->
  tileType d <> "Rhombs"%string ->
  refreshTiles_exn d
  = match initialLength d with
    | inl e => (d, Some e)
    | inr _ => (refreshTiles d, None)
    end.
Proof.
  intros Hk Hr; apply String.eqb_neq in Hk, Hr.
  unfold refreshTiles_exn, refreshTiles; cbv zeta.
  destruct (initialLength d) as [e|l]; [reflexivity|].
  now rewrite Hk, Hr.
Qed.

(** ** The algorithm *)

(** C6 (amended): with the label of a family in [tileType] and a depth that
    is not negative, and provided line 156 and the seed constructor raise
    nothing, [refreshTiles] builds the one-element seed of edge length
    [baseLength / PHI ** depth] and runs [deflateTiles] on it [depth] times
    (no time for depth 0); [deflateTiles] replaces the tiles by the
    concatenation, in order, of the children of each.  If line 156 or the
    seed constructor raises, [refreshTiles] raises the same exception and
    leaves the state as it was.  Line 156 raises nothing exactly when the
    power, the conversion of [baseLength] and the division raise nothing,
    the seed constructor exactly when the coordinates of the centre can be
    converted. *)
Theorem refreshTiles_algorithm (d : data) (f : family) :
  tileType d = label f ->
  (0 <= depth d)%Z ->
  let cx := (width d / 2)%Z in
  let cy := (height d / 2)%Z in
  let l := of_int (baseLength d) / PHI ** depth d in
  let seed := seed_of f cx cy l in
  (initialLength_ok d -> seed_ok f cx cy ->
   initialLength d = inr l /\
   seed_of_exn f cx cy l = inr seed /\
   List.length seed = 1%nat /\
   (exists n : nat,
      Z.of_nat n = depth d /\
      refreshTiles_exn d
      = (Nat.iter n deflateTiles (set_tiles d seed), None)) /\
   (depth d = 0%Z -> refreshTiles_exn d = (set_tiles d seed, None)) /\
   tiles (fst (refreshTiles_exn d))
   = regenerate f (depth d) (baseLength d) (width d) (height d)) /\
  (forall d' : data,
     deflateTiles d' = set_tiles d' (List.concat (map deflate (tiles d')))) /\
  (forall e : exn,
     initialLength d = inl e -> refreshTiles_exn d = (d, Some e)) /\
  (forall (l' : num) (e : exn),
     initialLength d = inr l' -> seed_of_exn f cx cy l' = inl e ->
     refreshTiles_exn d = (d, Some e)) /\
  (initialLength_ok d <-> exists l' : num, initialLength d = inr l') /\
  (seed_ok f cx cy <-> exists ts : list tile, seed_of_exn f cx cy l = inr ts).
Proof.
  intros Hty Hdepth cx cy l seed.
  split; [|split; [|split; [|split; [|split]]]].
  - intros Hl Hs.
    rewrite (@refreshTiles_exn_ok d f Hty Hl Hs).
    rewrite (refreshTiles_regenerate d f Hty); cbn [fst tiles set_tiles].
    split; [exact (initialLength_ok_inr Hl)|].
    split; [exact (seed_ok_inr f cx cy l Hs)|].
    split; [apply seed_of_single|].
    unfold regenerate, initial_length; fold cx cy l seed.
    split; [|split; [|reflexivity]].
    + exists (Z.to_nat (depth d)); split; [lia|].
      now rewrite iter_deflateTiles, set_tiles_tiles, set_tiles_twice.
    + now intros ->.
  - exact deflateTiles_next_generation.
  - intros e He; now rewrite (refreshTiles_exn_label d f Hty), He.
  - intros l' e Hl' He.
    rewrite (refreshTiles_exn_label d f Hty), Hl'; fold cx cy; now rewrite He.
  - split.
    + intros Hl; eexists; exact (initialLength_ok_inr Hl).
    + intros [l' Hl']; exact (proj1 (initialLength_inr_ok d Hl')).
  - split.
    + intros Hs; eexists; exact (seed_ok_inr f cx cy l Hs).
    + intros [ts Hts]; exact (proj1 (seed_inr_ok _ _ _ _ Hts)).
Qed.

(** ** Consequences *)

(** X3: when [refreshTiles] raises nothing, the tiling it stores has
    Fibonacci many tiles: at depth [n] a kite-and-dart tiling has
    [fib (2n+1)] half kites and [fib (2n)] half darts, [fib (2n+2)] tiles in
    all; a rhomb tiling has [fib (2n)] obtuse triangles among [fib (2n+1)]
    tiles.  When it raises, it stores nothing. *)
Theorem refreshTiles_count (d : data) (f : family) :
  tileType d = label f ->
  let n := Z.to_nat (depth d) in
  (initialLength_ok d -> seed_ok f (width d / 2) (height d / 2) ->
   exists d' : data,
     refreshTiles_exn d = (d', None) /\
     match f with
     | KiteDart =>
         count_variant VKite (tiles d') = fib (2 * n + 1) /\
         count_variant VDart (tiles d') = fib (2 * n) /\
         List.length (tiles d') = fib (2 * n + 2)
     | Rhomb =>
         count_variant VAcute (tiles d') + fib (2 * n) = fib (2 * n + 1) /\
         count_variant VObtuse (tiles d') = fib (2 * n) /\
         List.length (tiles d') = fib (2 * n + 1)
     end)%nat /\
  (forall e : exn,
     snd (refreshTiles_exn d) = Some e -> fst (refreshTiles_exn d) = d).
Proof.
  intros Hty n; split; [|exact (refreshTiles_exn_raises d)].
  intros Hl Hs; exists (refreshTiles d).
  split; [exact (@refreshTiles_exn_ok d f Hty Hl Hs)|].
  exact (refreshTiles_fib d f Hty).
Qed.

(** X8: with a value in [tileType] that is neither label, no seed is built:
    when line 156 raises nothing, [refreshTiles] deflates the tiles the state
    holds [depth] more times, so that the call multiplies their number by at
    least [2 ^ depth]; when line 156 raises, [refreshTiles] raises the same
    exception and leaves the state as it was. *)
Theorem refreshTiles_unknown_tileType (d : data) :
  tileType d <> "Kite & Dart"%string ->
  tileType d <> "Rhombs"%string ->
  (initialLength_ok d ->
   refreshTiles_exn d
   = (Nat.iter (Z.to_nat (depth d)) deflateTiles d, None) /\
   tiles (fst (refreshTiles_exn d))
   = generations (Z.to_nat (depth d)) (tiles d) /\
   (2 ^ Z.to_nat (depth d) * List.length (tiles d)
    <= List.length (tiles (fst (refreshTiles_exn d))))%nat) /\
  (forall e : exn,
     initialLength d = inl e -> refreshTiles_exn d = (d, Some e)).
Proof.
  intros Hk Hr; rewrite (refreshTiles_exn_other d Hk Hr); split.
  - intros Hl; rewrite (initialLength_ok_inr Hl); cbn [fst].
    destruct (refreshTiles_other_tileType d Hk Hr) as (H1 & H2 & H3).
    rewrite <- H1; repeat split; assumption.
  - now intros e ->.
Qed.

(** X9: at a depth that is not positive [range(depth)] is empty: when line
    156 and the seed constructor raise nothing, the tiling is the seed
    alone, one tile, of edge length [baseLength / PHI ** depth]. *)
Theorem refreshTiles_nonpositive_depth (d : data) (f : family) :
  tileType d = label f ->
  (depth d <= 0)%Z ->
  initialLength_ok d ->
  seed_ok f (width d / 2) (height d / 2) ->
  refreshTiles_exn d
  = (set_tiles d
       (seed_of f (width d / 2) (height d / 2)
          (of_int (baseLength d) / PHI ** depth d)), None) /\
  List.length (tiles (fst (refreshTiles_exn d))) = 1%nat.
Proof.
  intros Hty Hdepth Hl Hs.
  rewrite (@refreshTiles_exn_ok d f Hty Hl Hs); cbn [fst].
  destruct (refreshTiles_seed_alone d f Hty Hdepth) as [H1 H2].
  split; [|exact H2].
  f_equal; rewrite <- H1.
  destruct (refreshTiles_frame d) as [ts ->]; reflexivity.
Qed.

End Raises.

(** * The exceptions over the real numbers, and with the range of binary64 *)

Section Range.

Local Open Scope R_scope.

(** ** Real numbers: nothing is raised *)

Lemma PHI_nonzero : @PHI RArith <> 0.
Proof. pose proof PHI_unit; lra. Qed.

Lemma initialLength_ok_real (d : @data RArith) : initialLength_ok d.
Proof.
  unfold initialLength_ok; cbn [pow_exn of_int_exn div_exn RRaising].
  destruct (Req_dec_T (@PHI RArith) 0) as [H|_];
    [now apply PHI_nonzero in H|].
  destruct (Req_dec_T (@num_pow RArith (@PHI RArith) (depth d)) 0) as [H|_].
  - now apply (powerRZ_NOR _ (depth d) PHI_nonzero) in H.
  - repeat split.
Qed.

Lemma seed_ok_real (f : family) (cx cy : Z) : @seed_ok RArith RRaising f cx cy.
Proof. destruct f; split; reflexivity. Qed.

(** ** The range of binary64: the depths 1548 and 1549 *)

Lemma PHI_tight : 0.61803 < @PHI RArith < 0.61805.
Proof.
  rewrite PHI_real.
  assert (H : sqrt 5 * sqrt 5 = 5) by (apply sqrt_sqrt; lra).
  assert (H0 : 0 <= sqrt 5) by apply sqrt_pos.
  split; nra.
Qed.

Lemma ratio_le (a b c : Z) :
  (0 < b)%Z -> (0 < c)%Z -> (a * c <= b)%Z -> IZR a / IZR b <= / IZR c.
Proof.
  intros Hb Hc H; apply IZR_lt in Hb, Hc; apply IZR_le in H.
  rewrite mult_IZR in H.
  apply Rmult_le_reg_r with (IZR b * IZR c); [now apply Rmult_lt_0_compat|].
  replace (IZR a / IZR b * (IZR b * IZR c)) with (IZR a * IZR c)
    by (field; lra).
  replace (/ IZR c * (IZR b * IZR c)) with (IZR b) by (field; lra).
  exact H.
Qed.

Lemma ratio_gt (a b c : Z) :
  (0 < b)%Z -> (0 < c)%Z -> (b < a * c)%Z -> / IZR c < IZR a / IZR b.
Proof.
  intros Hb Hc H; apply IZR_lt in Hb, Hc, H.
  rewrite mult_IZR in H.
  apply Rmult_lt_reg_r with (IZR b * IZR c); [now apply Rmult_lt_0_compat|].
  replace (IZR a / IZR b * (IZR b * IZR c)) with (IZR a * IZR c)
    by (field; lra).
  replace (/ IZR c * (IZR b * IZR c)) with (IZR b) by (field; lra).
  exact H.
Qed.

Lemma ratio_pow (a b : Z) (n : nat) :
  (0 < b)%Z ->
  (IZR a / IZR b) ^ n = IZR (a ^ Z.of_nat n) / IZR (b ^ Z.of_nat n).
Proof.
  intros Hb; apply IZR_lt in Hb.
  unfold Rdiv; rewrite Rpow_mult_distr, pow_inv, !pow_IZR; reflexivity.
Qed.

Lemma two_pow (m : nat) : 2 ^ m = IZR (2 ^ Z.of_nat m).
Proof. now rewrite <- pow_IZR. Qed.

(** [PHI ^ 85 <= 2^-59] and [PHI ^ 19 <= 2^-13]. *)
Lemma PHI_pow_upper (n m : nat) :
  (0 < 2 ^ Z.of_nat m)%Z ->
  (61805 ^ Z.of_nat n * 2 ^ Z.of_nat m <= 100000 ^ Z.of_nat n)%Z ->
  @PHI RArith ^ n <= / 2 ^ m.
Proof.
  intros Hm H; pose proof PHI_tight as Hphi.
  apply Rle_trans with ((IZR 61805 / IZR 100000) ^ n).
  - apply pow_incr; lra.
  - rewrite ratio_pow, two_pow by lia.
    apply ratio_le; [apply Z.pow_pos_nonneg; lia | exact Hm | exact H].
Qed.

Lemma PHI_pow_lower (n m : nat) :
  (0 < 2 ^ Z.of_nat m)%Z ->
  (100000 ^ Z.of_nat n < 61803 ^ Z.of_nat n * 2 ^ Z.of_nat m)%Z ->
  / 2 ^ m < @PHI RArith ^ n.
Proof.
  intros Hm H; pose proof PHI_tight as Hphi.
  apply Rlt_le_trans with ((IZR 61803 / IZR 100000) ^ n).
  - rewrite ratio_pow, two_pow by lia.
    apply ratio_gt; [apply Z.pow_pos_nonneg; lia | exact Hm | exact H].
  - apply pow_incr; lra.
Qed.

Lemma inv_two_pow_mult (m k j : nat) :
  (/ 2 ^ m) ^ k * / 2 ^ j = / 2 ^ (m * k + j).
Proof.
  rewrite pow_inv, <- pow_mult, <- Rinv_mult, <- pow_add; reflexivity.
Qed.

(** [PHI ^ 1549] is at most [2^-1075], and [PHI ^ 1548] is more. *)
Lemma PHI_pow_1549 : @PHI RArith ^ 1549 <= / 2 ^ 1075.
Proof.
  assert (H85 : @PHI RArith ^ 85 <= / 2 ^ 59)
    by (apply PHI_pow_upper; vm_compute; [reflexivity | discriminate]).
  assert (H19 : @PHI RArith ^ 19 <= / 2 ^ 13)
    by (apply PHI_pow_upper; vm_compute; [reflexivity | discriminate]).
  pose proof PHI_unit as Hphi.
  assert (P85 : 0 <= @PHI RArith ^ 85) by (apply pow_le; lra).
  assert (P19 : 0 <= @PHI RArith ^ 19) by (apply pow_le; lra).
  change 1549%nat with (85 * 18 + 19)%nat.
  change 1075%nat with (59 * 18 + 13)%nat.
  rewrite <- inv_two_pow_mult, pow_add, pow_mult.
  apply Rmult_le_compat; [now apply pow_le | exact P19 | | exact H19].
  apply pow_incr; split; assumption.
Qed.

Lemma PHI_pow_1548 : / 2 ^ 1075 < @PHI RArith ^ 1548.
Proof.
  assert (H157 : / 2 ^ 109 < @PHI RArith ^ 157)
    by (apply PHI_pow_lower; vm_compute; reflexivity).
  assert (H135 : / 2 ^ 94 < @PHI RArith ^ 135)
    by (apply PHI_pow_lower; vm_compute; reflexivity).
  assert (P109 : 0 < / 2 ^ 109) by (apply Rinv_0_lt_compat, pow_lt; lra).
  assert (P94 : 0 < / 2 ^ 94) by (apply Rinv_0_lt_compat, pow_lt; lra).
  change 1548%nat with (157 * 9 + 135)%nat.
  change 1075%nat with (109 * 9 + 94)%nat.
  rewrite <- inv_two_pow_mult, pow_add, pow_mult.
  apply Rle_lt_trans with ((@PHI RArith ^ 157) ^ 9 * / 2 ^ 94).
  - apply Rmult_le_compat_r; [now apply Rlt_le|].
    apply pow_incr; split; now apply Rlt_le.
  - apply Rmult_lt_compat_l; [|exact H135].
    apply pow_lt; now apply Rlt_trans with (/ 2 ^ 109).
Qed.

Lemma float_limit_above (n : Z) :
  (Z.abs n < float_limit)%Z -> (float_limit <=? Z.abs n)%Z = false.
Proof. intros H; now apply Z.leb_gt. Qed.

Lemma float_limit_large : (1549 < float_limit)%Z.
Proof. vm_compute; reflexivity. Qed.

Lemma PHI_pow_in_range (n : nat) :
  ~ IZR float_limit <= Rabs (@PHI RArith ^ n).
Proof.
  pose proof PHI_unit as Hphi.
  assert (H1 : @PHI RArith ^ n <= 1).
  { rewrite <- (pow1 n); apply pow_incr; lra. }
  assert (H0 : 0 <= @PHI RArith ^ n) by (apply pow_le; lra).
  assert (Hl : 1 < IZR float_limit)
    by (apply IZR_lt; vm_compute; reflexivity).
  rewrite Rabs_pos_eq by exact H0; lra.
Qed.

(** The powers of [PHI] decrease. *)
Lemma PHI_pow_decreasing (n m : nat) :
  (n <= m)%nat -> @PHI RArith ^ m <= @PHI RArith ^ n.
Proof.
  intros Hnm; pose proof PHI_unit as Hphi.
  replace m with (n + (m - n))%nat by lia; rewrite pow_add.
  assert (H0 : 0 <= @PHI RArith ^ n) by (apply pow_le; lra).
  assert (H1 : @PHI RArith ^ (m - n) <= 1).
  { rewrite <- (pow1 (m - n)); apply pow_incr; lra. }
  rewrite <- (Rmult_1_r (@PHI RArith ^ n)) at 2.
  now apply Rmult_le_compat_l.
Qed.

Lemma ranged_pow_exn (n : nat) :
  (Z.of_nat n < float_limit)%Z ->
  @pow_exn RangedArith RangedRaising (@PHI RangedArith) (Z.of_nat n) = None.
Proof.
  intros Hn; cbn [pow_exn RangedRaising].
  rewrite float_limit_above by lia.
  change (@PHI RangedArith) with (@PHI RArith).
  destruct (Req_dec_T (@PHI RArith) 0) as [H|_];
    [now apply PHI_nonzero in H|].
  rewrite <- pow_powerRZ.
  destruct (Rle_dec (IZR float_limit) (Rabs (@PHI RArith ^ n))) as [H|_];
    [now apply PHI_pow_in_range in H | reflexivity].
Qed.

(** From the exponent 1549 on the power is rounded to zero; up to 1548 it
    is not. *)
Lemma ranged_pow_flushed (n : nat) :
  (1549 <= n)%nat ->
  @num_pow RangedArith (@PHI RangedArith) (Z.of_nat n) = 0.
Proof.
  intros Hn; cbn [num_pow RangedArith]; unfold pow_ranged.
  change (@PHI RangedArith) with (@PHI RArith); rewrite <- pow_powerRZ.
  pose proof PHI_pow_1549 as H; pose proof PHI_unit as Hphi.
  pose proof (PHI_pow_decreasing Hn) as Hdec.
  assert (H0 : 0 <= @PHI RArith ^ n) by (apply pow_le; lra).
  rewrite Rabs_pos_eq by exact H0.
  destruct (Rle_dec (@PHI RArith ^ n) (/ 2 ^ 1075)) as [_|Hno];
    [reflexivity|].
  exfalso; apply Hno.
  now apply Rle_trans with (@PHI RArith ^ 1549).
Qed.

Lemma ranged_pow_kept (n : nat) :
  (n <= 1548)%nat ->
  @num_pow RangedArith (@PHI RangedArith) (Z.of_nat n) = @PHI RArith ^ n.
Proof.
  intros Hn; cbn [num_pow RangedArith]; unfold pow_ranged.
  change (@PHI RangedArith) with (@PHI RArith); rewrite <- pow_powerRZ.
  pose proof PHI_pow_1548 as H; pose proof PHI_unit as Hphi.
  pose proof (PHI_pow_decreasing Hn) as Hdec.
  assert (H0 : 0 <= @PHI RArith ^ n) by (apply pow_le; lra).
  rewrite Rabs_pos_eq by exact H0.
  destruct (Rle_dec (@PHI RArith ^ n) (/ 2 ^ 1075)) as [Hle|_];
    [|reflexivity].
  exfalso; apply (Rlt_irrefl (/ 2 ^ 1075)).
  apply Rlt_le_trans with (@PHI RArith ^ 1548); [exact H|].
  now apply Rle_trans with (@PHI RArith ^ n).
Qed.

Lemma ranged_of_int_30 : @of_int_exn RangedArith RangedRaising 30 = None.
Proof.
  cbn [of_int_exn RangedRaising].
  now rewrite float_limit_above by (vm_compute; reflexivity).
Qed.

(** From depth 1549 on line 156 divides by zero. *)
Lemma ranged_initialLength_raises (ty : string) (n : Z) :
  (1549 <= n < float_limit)%Z ->
  @initialLength RangedArith RangedRaising (ranged_canvas ty n)
  = inl ZeroDivisionError.
Proof.
  intros Hn.
  unfold initialLength, checked_pow, float_of_int, checked_div, ranged_canvas.
  cbn [depth baseLength].
  rewrite <- (Z2Nat.id n) by lia.
  rewrite ranged_pow_exn by lia.
  cbn [bind ret]; rewrite ranged_of_int_30.
  cbn [bind ret]; rewrite ranged_pow_flushed by lia.
  cbn [div_exn RangedRaising].
  destruct (Req_dec_T 0 0) as [_|H]; [reflexivity | now elim H].
Qed.

(** Up to depth 1548 it raises nothing. *)
Lemma ranged_initialLength_ok (ty : string) (n : Z) :
  (0 <= n <= 1548)%Z ->
  @initialLength_ok RangedArith RangedRaising (ranged_canvas ty n).
Proof.
  intros Hn; pose proof float_limit_large as Hlarge.
  unfold initialLength_ok, ranged_canvas; cbn [depth baseLength].
  rewrite <- (Z2Nat.id n) by lia.
  split; [|split].
  - apply ranged_pow_exn; lia.
  - exact ranged_of_int_30.
  - rewrite ranged_pow_kept by lia; cbn [div_exn RangedRaising].
    destruct (Req_dec_T (@PHI RArith ^ Z.to_nat n) 0) as [H|_];
      [|reflexivity].
    exfalso; revert H; apply pow_nonzero, PHI_nonzero.
Qed.

Lemma ranged_seed_ok (f : family) :
  @seed_ok RangedArith RangedRaising f (800 / 2) (500 / 2).
Proof.
  destruct f; split; cbn [of_int_exn RangedRaising];
    now rewrite float_limit_above by (vm_compute; reflexivity).
Qed.

(** On the canvas of [run(800, 500)], with the range of binary64:
    [refreshTiles] returns the tiling up to depth 1548 and raises
    [ZeroDivisionError], leaving the state as it was, from depth 1549 on. *)
Lemma ranged_refreshTiles_threshold (f : family) (n : Z) :
  (0 <= n < float_limit)%Z ->
  @refreshTiles_exn RangedArith RangedRaising (ranged_canvas (label f) n)
  = if (n <? 1549)%Z
    then (refreshTiles (ranged_canvas (label f) n), None)
    else (ranged_canvas (label f) n, Some ZeroDivisionError).
Proof.
  intros Hn; destruct (n <? 1549)%Z eqn:Hlt.
  - apply Z.ltb_lt in Hlt.
    apply (@refreshTiles_exn_ok RangedArith RangedRaising _ f);
      [reflexivity | apply ranged_initialLength_ok; lia
       | apply ranged_seed_ok].
  - apply Z.ltb_ge in Hlt.
    rewrite (@refreshTiles_exn_label RangedArith RangedRaising _ f)
      by reflexivity.
    now rewrite ranged_initialLength_raises by lia.
Qed.

(** ** The statement the code does not satisfy *)

(** C6, as stated, fails with the range of binary64 at depth 1549 on the
    canvas of [run(800, 500)]: [PHI ** 1549] is zero, line 156 raises
    [ZeroDivisionError], and [refreshTiles] leaves the state without tiles
    instead of a seed deflated 1549 times; at depth 1548 it still returns the
    tiling. *)
Lemma refreshTiles_algorithm_not_at_depth_1549 :
  tileType (ranged_canvas "Rhombs" 1549) = label Rhomb /\
  (0 <= depth (ranged_canvas "Rhombs" 1549))%Z /\
  @refreshTiles_exn RangedArith RangedRaising (ranged_canvas "Rhombs" 1549)
  = (ranged_canvas "Rhombs" 1549, Some ZeroDivisionError) /\
  ~ (exists n : nat,
       Z.of_nat n = depth (ranged_canvas "Rhombs" 1549) /\
       @refreshTiles_exn RangedArith RangedRaising
         (ranged_canvas "Rhombs" 1549)
       = (Nat.iter n deflateTiles
            (set_tiles (ranged_canvas "Rhombs" 1549)
               (@seed_of RangedArith Rhomb 400 250
                  (@num_div RangedArith (IZR 30)
                     (@num_pow RangedArith (@PHI RangedArith) 1549)))),
          None)) /\
  @refreshTiles_exn RangedArith RangedRaising (ranged_canvas "Rhombs" 1548)
  = (refreshTiles (ranged_canvas "Rhombs" 1548), None).
Proof.
  assert (H : @refreshTiles_exn RangedArith RangedRaising
                (ranged_canvas "Rhombs" 1549)
              = (ranged_canvas "Rhombs" 1549, Some ZeroDivisionError)).
  { apply (@ranged_refreshTiles_threshold Rhomb 1549).
    pose proof float_limit_large; lia. }
  split; [reflexivity | split; [cbn; lia | split; [exact H | split]]].
  - intros (n & _ & Hn); rewrite H in Hn; discriminate Hn.
  - apply (@ranged_refreshTiles_threshold Rhomb 1548).
    pose proof float_limit_large; lia.
Qed.

End Range.

(** * Instances of the properties above *)

Section Instances.

Local Open Scope R_scope.

Lemma deflateTiles_length_bounds_witness :
  tiles (canvas "Rhombs" 0) = [] /\
  deflateTiles (canvas "Rhombs" 0) = canvas "Rhombs" 0.
Proof.
  split; [reflexivity|].
  apply (proj2 (proj2 (deflateTiles_length_bounds (canvas "Rhombs" 0))));
    reflexivity.
Defined.

Lemma reachable_invariants_witness :
  reachable 800 500 (keyPressed "Tab" (keyPressed "Up" (run_data 800 500))) /\
  baseLength (keyPressed "Tab" (keyPressed "Up" (run_data 800 500))) = 30%Z /\
  (0 <= depth (keyPressed "Tab" (keyPressed "Up" (run_data 800 500))))%Z.
Proof.
  assert (H : reachable 800 500
                (keyPressed "Tab" (keyPressed "Up" (@run_data RArith 800 500))))
    by apply reachable_key, reachable_key, reachable_run.
  split; [exact H|].
  destruct (reachable_invariants H) as (_ & _ & _ & Hb & Hd & _).
  split; assumption.
Defined.

Lemma keyPressed_round_trips_witness :
  keyPressed "Down" (keyPressed "Up" (run_data 800 500)) = run_data 800 500 /\
  keyPressed "Tab" (keyPressed "Tab" (run_data 800 500)) = run_data 800 500.
Proof.
  destruct (@keyPressed_round_trips RArith 800 500 _ (reachable_run 800 500))
    as (H1 & H2 & _).
  split; assumption.
Defined.

Lemma keyPressed_frame_witness :
  keyPressed "up" (refreshTiles (canvas "Rhombs" 1))
  = refreshTiles (canvas "Rhombs" 1).
Proof.
  apply (proj2 (keyPressed_frame "up" (refreshTiles (canvas "Rhombs" 1))));
    discriminate.
Defined.

Lemma refreshTiles_idempotent_witness :
  refreshTiles (refreshTiles (canvas "Rhombs" 2))
  = refreshTiles (canvas "Rhombs" 2).
Proof.
  apply (@refreshTiles_idempotent RArith (canvas "Rhombs" 2) Rhomb).
  reflexivity.
Defined.

Lemma deflateTiles_golden_shape_witness :
  Forall (golden_shape 30)
    (tiles
       (set_tiles (canvas "Rhombs" 0) (@Rhomb_initialTiles RArith 400 250 30)))
  /\ Forall (golden_shape (@PHI RArith * 30))
       (tiles
          (deflateTiles
             (set_tiles (canvas "Rhombs" 0)
                (@Rhomb_initialTiles RArith 400 250 30)))).
Proof.
  assert (H : Forall (golden_shape 30)
                (tiles
                   (set_tiles (canvas "Rhombs" 0)
                      (@Rhomb_initialTiles RArith 400 250 30))))
    by exact (seed_golden_shape Rhomb 400 250 30).
  split; [exact H | exact (deflateTiles_golden_shape _ H)].
Defined.

Lemma refreshTiles_golden_shape_witness :
  Forall (golden_shape 30) (tiles (refreshTiles (canvas "Kite & Dart" 3))).
Proof.
  apply (@refreshTiles_golden_shape (canvas "Kite & Dart" 3) KiteDart);
    [reflexivity | cbn; lia].
Defined.

Lemma deflateTiles_halfplane_witness :
  Forall (tile_in_halfplane (1, 1) 1)
    (tiles
       (Nat.iter 3 deflateTiles
          (set_tiles (canvas "Kite & Dart" 3) [Kite (0, 0) (1, 0) (0, 1)]))).
Proof.
  apply deflateTiles_halfplane.
  apply Forall_cons; [|apply Forall_nil].
  unfold tile_in_halfplane, in_halfplane; cbn [apex vertex1 vertex2 fst snd].
  repeat split; lra.
Defined.

Lemma refreshTiles_bounding_box_witness :
  Forall (tile_in_box
            (160 - 30 / powerRZ (@PHI RArith) 2 * sin (2 * PI / 5) / 2,
             250 - 30 / powerRZ (@PHI RArith) 2 * @PHI RArith / 2)
            (160 + 30 / powerRZ (@PHI RArith) 2 * sin (2 * PI / 5) / 2,
             250 + 30 / powerRZ (@PHI RArith) 2 * @PHI RArith / 2))
    (tiles (refreshTiles (canvas "Rhombs" 2))).
Proof.
  apply (@refreshTiles_bounding_box (canvas "Rhombs" 2) Rhomb);
    [reflexivity | cbn; lia | cbn; lia].
Defined.

Lemma refreshTiles_algorithm_witness :
  tileType (canvas "Kite & Dart" 2) = label KiteDart /\
  (0 <= depth (canvas "Kite & Dart" 2))%Z /\
  initialLength_ok (canvas "Kite & Dart" 2) /\
  @seed_ok RArith RRaising KiteDart 400 250 /\
  snd (refreshTiles_exn (canvas "Kite & Dart" 2)) = None /\
  tiles (fst (refreshTiles_exn (canvas "Kite & Dart" 2)))
  = generations 2
      (@KiteDart_initialTiles RArith 400 250
         (30 / powerRZ (@PHI RArith) 2)).
Proof.
  pose proof (initialLength_ok_real (canvas "Kite & Dart" 2)) as Hl.
  pose proof (seed_ok_real KiteDart 400 250) as Hs.
  destruct (@refreshTiles_algorithm RArith RRaising (canvas "Kite & Dart" 2)
              KiteDart) as (Hok & _); [reflexivity | cbn; lia |].
  destruct (Hok Hl Hs) as (_ & _ & _ & (n & _ & Heq) & _ & Htiles).
  split; [reflexivity | split; [cbn; lia |]].
  split; [exact Hl | split; [exact Hs | split; [|exact Htiles]]].
  now rewrite Heq.
Defined.

Lemma refreshTiles_count_witness :
  exists d' : @data RArith,
    refreshTiles_exn (canvas "Kite & Dart" 3) = (d', None) /\
    count_variant VKite (tiles d') = 13%nat /\
    count_variant VDart (tiles d') = 8%nat /\
    List.length (tiles d') = 21%nat.
Proof.
  exact (proj1
           (@refreshTiles_count RArith RRaising (canvas "Kite & Dart" 3)
              KiteDart eq_refl)
           (initialLength_ok_real _) (seed_ok_real KiteDart _ _)).
Defined.

Lemma refreshTiles_unknown_tileType_witness :
  refreshTiles_exn
    (set_tiles (canvas "Penrose" 2) [Kite (0, 0) (1, 0) (0, 1)])
  = (Nat.iter 2 deflateTiles
       (set_tiles (canvas "Penrose" 2) [Kite (0, 0) (1, 0) (0, 1)]), None) /\
  le 4
    (List.length
       (tiles
          (fst
             (refreshTiles_exn
                (set_tiles (canvas "Penrose" 2)
                   [Kite (0, 0) (1, 0) (0, 1)]))))).
Proof.
  destruct (@refreshTiles_unknown_tileType RArith RRaising
              (set_tiles (canvas "Penrose" 2)
                 [@Kite RArith (0, 0) (1, 0) (0, 1)]))
    as (Hok & _); [discriminate | discriminate |].
  destruct (Hok (initialLength_ok_real _)) as (H1 & _ & H3).
  split; [exact H1 | exact H3].
Defined.

Lemma refreshTiles_nonpositive_depth_witness :
  refreshTiles_exn (canvas "Rhombs" (-2))
  = (set_tiles (canvas "Rhombs" (-2))
       (@Rhomb_initialTiles RArith 400 250
          (30 / powerRZ (@PHI RArith) (-2))), None) /\
  List.length (tiles (fst (refreshTiles_exn (canvas "Rhombs" (-2))))) = 1%nat.
Proof.
  apply (@refreshTiles_nonpositive_depth RArith RRaising
           (canvas "Rhombs" (-2)) Rhomb);
    [reflexivity | cbn; lia | apply initialLength_ok_real
     | apply seed_ok_real].
Defined.

End Instances.
